(** * har_cleaner.py: a shallow embedding and its properties

    The program reads a HAR capture (a JSON document), keeps the entries
    whose request URL is "interesting", normalises each kept entry and
    writes a report with a summary.  Its three functions are embedded
    below in the order of the source:

      - [is_interesting_url]            (lines 10-36)
      - [extract_interesting_content]   (lines 38-89)
      - [clean_har_file]                (lines 91-123)

    Python values are dynamically typed, so the embedding keeps one type
    [pyval] of run-time values and an error monad [result] whose failures
    are the exceptions the interpreter raises.  The library functions the
    program calls ([re.search], [json.loads], integer true division, float
    arithmetic and ['.1f'] formatting) are given executable definitions of
    their own so that every function of the program can be run on concrete
    inputs. *)

From Stdlib Require Import ZArith NArith List String Ascii Bool Lia.
From Stdlib Require Import QArith Qabs Lqa.
From Stdlib Require Import Floats.SpecFloat.
From Stdlib Require Import DecimalString.
Import ListNotations.

Set Warnings "-register-all,-abstract-large-number".

(* ================================================================== *)
(** * Python strings, values and exceptions *)

Module Py.

(** A Python [str] is a sequence of Unicode code points. *)
Definition pystr := list N.

(** The code point of an ASCII character and the [str] of an ASCII
    literal. *)
Definition ch (a : ascii) : N := N_of_ascii a.
Definition py (s : string) : pystr := map N_of_ascii (list_ascii_of_string s).

(** The double quote, and a text written with an apostrophe wherever it
    has a double quote (the JSON texts of the examples). *)
Definition quote : N := 34.
Definition js (s : string) : pystr :=
  map (fun c => if N.eqb c 39 then quote else c) (py s).

Fixpoint str_eqb (a b : pystr) : bool :=
  match a, b with
  | [], [] => true
  | x :: a', y :: b' => N.eqb x y && str_eqb a' b'
  | _, _ => false
  end.

Fixpoint startswith (s prefix : pystr) : bool :=
  match prefix, s with
  | [], _ => true
  | p :: prefix', x :: s' => N.eqb p x && startswith s' prefix'
  | _ :: _, [] => false
  end.

(** [sub in s] on two strings: substring search. *)
Fixpoint str_contains (sub s : pystr) : bool :=
  startswith s sub ||
  match s with
  | [] => false
  | _ :: s' => str_contains sub s'
  end.

(** Run-time values: what [json.load] can return and what the program
    builds from it.  A [dict] keeps its keys in insertion order; it is an
    association list read through [dict_get], which takes the first
    binding of a key. *)
Inductive pyval : Type :=
| PNone
| PBool (b : bool)
| PInt (z : Z)
| PFloat (f : spec_float)
| PStr (s : pystr)
| PList (l : list pyval)
| PDict (d : list (pystr * pyval)).

Definition dict := list (pystr * pyval).

Fixpoint dict_get (k : pystr) (d : dict) : option pyval :=
  match d with
  | [] => None
  | (k', v) :: d' => if str_eqb k k' then Some v else dict_get k d'
  end.

Definition dict_has (k : pystr) (d : dict) : bool :=
  match dict_get k d with Some _ => true | None => false end.

(** [d[k] = v]: an existing key keeps its position. *)
Fixpoint dict_set (d : dict) (k : pystr) (v : pyval) : dict :=
  match d with
  | [] => [(k, v)]
  | (k', v') :: d' =>
      if str_eqb k k' then (k', v) :: d' else (k', v') :: dict_set d' k v
  end.

Fixpoint dict_keys_from (seen : list pystr) (d : dict) : list pystr :=
  match d with
  | [] => []
  | (k, _) :: d' =>
      if existsb (str_eqb k) seen then dict_keys_from seen d'
      else k :: dict_keys_from (k :: seen) d'
  end.

Definition dict_keys (d : dict) : list pystr := dict_keys_from [] d.

(** The exceptions that can escape the program.  [UserError] stands for
    an exception class of the program's own, raised by a [raise]
    statement; every other constructor is raised by the interpreter or
    by a library function. *)
Inductive pyexn : Type :=
| KeyError
| TypeError
| AttributeError
| ZeroDivisionError
| OverflowError
| JSONDecodeError
| FileNotFoundError
| UserError (name : string).

Inductive result (A : Type) : Type :=
| Ok (a : A)
| Raise (e : pyexn).

Arguments Ok {A} a.
Arguments Raise {A} e.

Definition bind {A B : Type} (c : result A) (k : A -> result B) : result B :=
  match c with
  | Ok a => k a
  | Raise e => Raise e
  end.

Definition raised_by_interpreter (e : pyexn) : bool :=
  match e with
  | UserError _ => false
  | _ => true
  end.

(** ** Primitive operations on values *)

(** [v[k]] with a string subscript: only a dict accepts it. *)
Definition getitem (v : pyval) (k : pystr) : result pyval :=
  match v with
  | PDict d =>
      match dict_get k d with
      | Some x => Ok x
      | None => Raise KeyError
      end
  | _ => Raise TypeError
  end.

Definition is_str (k : pystr) (v : pyval) : bool :=
  match v with
  | PStr s => str_eqb k s
  | _ => false
  end.

(** [v[k1][k2]...]: the subscripts are applied from left to right. *)
Fixpoint getpath (v : pyval) (ks : list string) : result pyval :=
  match ks with
  | [] => Ok v
  | k :: ks' =>
      match getitem v (py k) with
      | Ok x => getpath x ks'
      | Raise e => Raise e
      end
  end.

(** [k in v] for a string [k]: key membership in a dict, element
    membership in a list, substring search in a string; the other values
    are not containers. *)
Definition contains (k : pystr) (v : pyval) : result bool :=
  match v with
  | PDict d => Ok (dict_has k d)
  | PList l => Ok (existsb (is_str k) l)
  | PStr s => Ok (str_contains k s)
  | _ => Raise TypeError
  end.

(** [v.get(k, default)]: a method of dicts only. *)
Definition get (v : pyval) (k : pystr) (default : pyval) : result pyval :=
  match v with
  | PDict d =>
      match dict_get k d with
      | Some x => Ok x
      | None => Ok default
      end
  | _ => Raise AttributeError
  end.

Definition is_zero_float (f : spec_float) : bool :=
  match f with
  | S754_zero _ => true
  | _ => false
  end.

Definition truthy (v : pyval) : bool :=
  match v with
  | PNone => false
  | PBool b => b
  | PInt z => negb (Z.eqb z 0)
  | PFloat f => negb (is_zero_float f)
  | PStr s => match s with [] => false | _ => true end
  | PList l => match l with [] => false | _ => true end
  | PDict d => match d with [] => false | _ => true end
  end.

Definition len (v : pyval) : result Z :=
  match v with
  | PStr s => Ok (Z.of_nat (List.length s))
  | PList l => Ok (Z.of_nat (List.length l))
  | PDict d => Ok (Z.of_nat (List.length (dict_keys d)))
  | _ => Raise TypeError
  end.

(** The items a [for] loop visits. *)
Definition iter (v : pyval) : result (list pyval) :=
  match v with
  | PList l => Ok l
  | PDict d => Ok (map PStr (dict_keys d))
  | PStr s => Ok (map (fun c => PStr [c]) s)
  | _ => Raise TypeError
  end.

End Py.

Export Py.

Declare Scope py_scope.
Delimit Scope py_scope with py.
Notation "x <- c ;; k" := (bind c (fun x => k))
  (at level 61, c at next level, right associativity) : py_scope.
Open Scope py_scope.

(* ================================================================== *)
(** * [re.search] with [re.IGNORECASE] *)

Module Re.

(** The patterns of the program use literals, [\.], [.*] and [$]; this is
    the syntax [compile] reads. *)
Inductive node : Type :=
| Lit (c : N)       (* a character, compared ignoring case *)
| Any               (* [.]  : any character but a newline *)
| AnyStar           (* [.*] : any run of such characters *)
| Eos.              (* [$]  : the end, or just before a final newline *)

Definition regex := list node.

Fixpoint compile (p : pystr) : regex :=
  match p with
  | [] => []
  | c :: p' =>
      if N.eqb c (ch "\") then
        match p' with
        | d :: p'' => Lit d :: compile p''
        | [] => [Lit c]
        end
      else if N.eqb c (ch ".") then
        match p' with
        | d :: p'' => if N.eqb d (ch "*") then AnyStar :: compile p''
                      else Any :: compile p'
        | [] => [Any]
        end
      else if N.eqb c (ch "$") then Eos :: compile p'
      else Lit c :: compile p'
  end.

(** Lower-casing as the matcher applies it to a subject character.  Only
    its value on characters that lower to an ASCII letter matters below:
    besides [A-Z] these are U+0130 (to [i]) and U+212A, the Kelvin sign
    (to [k]). *)
Definition lower (c : N) : N :=
  if (65 <=? c)%N && (c <=? 90)%N then (c + 32)%N
  else if N.eqb c 304 then 105
  else if N.eqb c 8490 then 107
  else c.

(** A pattern character [c] against a subject character [x] under
    [IGNORECASE]: equal after lower-casing, or one of the two extra pairs
    the matcher knows for ASCII letters: [i] with U+0131 and [s] with
    U+017F. *)
Definition char_eq_ignorecase (c x : N) : bool :=
  let lo := lower c in
  let lx := lower x in
  N.eqb lx lo
  || (N.eqb lo 105 && N.eqb lx 305)
  || (N.eqb lo 115 && N.eqb lx 383).

Definition is_newline (x : N) : bool := N.eqb x 10.

Definition at_eos (s : pystr) : bool :=
  match s with
  | [] => true
  | [x] => is_newline x
  | _ => false
  end.

(** Does [r] match a prefix of [s]? *)
Fixpoint match_here (r : regex) (s : pystr) {struct r} : bool :=
  match r with
  | [] => true
  | Lit c :: r' =>
      match s with
      | x :: s' => char_eq_ignorecase c x && match_here r' s'
      | [] => false
      end
  | Any :: r' =>
      match s with
      | x :: s' => negb (is_newline x) && match_here r' s'
      | [] => false
      end
  | AnyStar :: r' =>
      (fix star (t : pystr) : bool :=
         match_here r' t ||
         match t with
         | x :: t' => negb (is_newline x) && star t'
         | [] => false
         end) s
  | Eos :: r' => at_eos s && match_here r' s
  end.

(** Does [r] match somewhere in [s]? *)
Fixpoint search_from (r : regex) (s : pystr) : bool :=
  match_here r s ||
  match s with
  | [] => false
  | _ :: s' => search_from r s'
  end.

(** [re.search(pattern, string, re.IGNORECASE)] read as a truth value.
    The subject must be a string. *)
Definition search (pattern : pystr) (string : pyval) : result bool :=
  match string with
  | PStr s => Ok (search_from (compile pattern) s)
  | _ => Raise TypeError
  end.

End Re.

(* ================================================================== *)
(** * Binary64 arithmetic

    Python's [float] is IEEE-754 binary64, carried here by the Standard
    Library's [spec_float].  Every operation the program performs is
    correctly rounded: its result is the binary64 number nearest to the
    exact result, ties going to the even mantissa.  [round] computes that
    number from an exact fraction. *)

Module Float64.

Open Scope Z_scope.

Definition prec : Z := 53.
Definition emax : Z := 1024.
(** The exponent of the subnormal numbers and the largest exponent of a
    53-bit mantissa. *)
Definition exp_min : Z := -1074.
Definition exp_max : Z := 971.

(** The fraction [(p / q) / 2^e]. *)
Definition scale (p q e : Z) : Z * Z :=
  if 0 <=? e then (p, q * 2 ^ e) else (p * 2 ^ (- e), q).

(** [floor (log2 (p / q))]. *)
Definition ilog2 (p q : positive) : Z :=
  let e0 := Z.log2 (Zpos p) - Z.log2 (Zpos q) in
  let '(n, d) := scale (Zpos p) (Zpos q) e0 in
  if d <=? n then e0 else e0 - 1.

(** The integer nearest to [n / d], ties to even ([0 <= n], [0 < d]). *)
Definition rne_div (n d : Z) : Z :=
  let q := n / d in
  match 2 * (n mod d) ?= d with
  | Lt => q
  | Gt => q + 1
  | Eq => if Z.even q then q else q + 1
  end.

(** The binary64 number nearest to [p / q], with sign [s]. *)
Definition round (s : bool) (p q : positive) : spec_float :=
  let e := Z.max (ilog2 p q - 52) exp_min in
  let '(n, d) := scale (Zpos p) (Zpos q) e in
  let m := rne_div n d in
  let '(m', e') := if m =? 2 ^ 53 then (2 ^ 52, e + 1) else (m, e) in
  match m' with
  | Zpos k => if e' <=? exp_max then S754_finite s k e' else S754_infinity s
  | _ => S754_zero s
  end.

Definition of_ratio (n : Z) (d : positive) : spec_float :=
  match n with
  | Z0 => S754_zero false
  | Zpos p => round false p d
  | Zneg p => round true p d
  end.

(** The exact value of a finite number, as a fraction. *)
Definition ratio (f : spec_float) : Z * positive :=
  match f with
  | S754_finite s m e =>
      let n := if s then Zneg m else Zpos m in
      match e with
      | Z0 => (n, 1%positive)
      | Zpos k => (n * 2 ^ Zpos k, 1%positive)
      | Zneg k => (n, Pos.pow 2 k)
      end
  | _ => (0, 1%positive)
  end.

(** [float(z)] for the integer constants of the program. *)
Definition of_int (z : Z) : spec_float := of_ratio z 1.

(** [x - y] and [x * y].  On two finite non-zero numbers the exact
    result is rounded; zeros, infinities and NaN follow the IEEE tables
    of [SFsub] and [SFmul]. *)
Definition sub (x y : spec_float) : spec_float :=
  match x, y with
  | S754_finite _ _ _, S754_finite _ _ _ =>
      let '(nx, dx) := ratio x in
      let '(ny, dy) := ratio y in
      of_ratio (nx * Zpos dy - ny * Zpos dx) (dx * dy)
  | _, _ => SFsub prec emax x y
  end.

Definition mul (x y : spec_float) : spec_float :=
  match x, y with
  | S754_finite _ _ _, S754_finite _ _ _ =>
      let '(nx, dx) := ratio x in
      let '(ny, dy) := ratio y in
      of_ratio (nx * ny) (dx * dy)
  | _, _ => SFmul prec emax x y
  end.

(** [a / b] on two [int]s: the correctly rounded quotient. *)
Definition int_truediv (a b : Z) : result spec_float :=
  if b =? 0 then Raise ZeroDivisionError
  else if a =? 0 then Ok (S754_zero (b <? 0))
  else
    match round (Z.sgn a * Z.sgn b <? 0) (Z.to_pos (Z.abs a)) (Z.to_pos (Z.abs b)) with
    | S754_infinity _ => Raise OverflowError
    | f => Ok f
    end.

(** [float(text)] for a decimal literal [digits * 10^exp10] with a sign. *)
Definition of_decimal (neg : bool) (digits : Z) (exp10 : Z) : spec_float :=
  match digits with
  | Zpos p =>
      if 0 <=? exp10 then round neg (p * Z.to_pos (10 ^ exp10)) 1
      else round neg p (Z.to_pos (10 ^ (- exp10)))
  | _ => S754_zero neg
  end.

Definition decimal (z : Z) : pystr :=
  py (NilEmpty.string_of_uint (N.to_uint (Z.to_N z))).

(** [format(f, '.1f')]: the exact value rounded to one decimal, ties to
    even. *)
Definition format_1f (f : spec_float) : pystr :=
  match f with
  | S754_nan => py "nan"
  | S754_infinity s => (if s then py "-" else []) ++ py "inf"
  | S754_zero s => (if s then py "-" else []) ++ py "0.0"
  | S754_finite s m e =>
      let '(n, d) := ratio (S754_finite false m e) in
      let t := rne_div (10 * n) (Zpos d) in
      (if s then py "-" else []) ++ decimal (t / 10) ++ py "." ++ decimal (t mod 10)
  end.

(** ** Values

    What the theorems say of binary64 numbers is said of their exact
    values, as rationals. *)

Definition value (f : spec_float) : Q := fst (ratio f) # snd (ratio f).

(** The fraction [a / b] for [0 < b]. *)
Definition frac (a b : Z) : Q := a # Z.to_pos b.

Definition nonneg_finite (f : spec_float) : bool :=
  match f with
  | S754_zero false | S754_finite false _ _ => true
  | _ => false
  end.

(** The number [m * 2^e] for [0 <= m]. *)
Definition dyadic (m e : Z) : spec_float :=
  match m with
  | Zpos k => S754_finite false k e
  | _ => S754_zero false
  end.

Definition one : spec_float := S754_finite false 4503599627370496 (-52).
Definition hundred : spec_float := S754_finite false 7036874417766400 (-46).

(** [p / q >= 2^e], read on the scaled fraction. *)
Definition at_least_pow2 (p q e : Z) : Prop :=
  snd (scale p q e) <= fst (scale p q e).

End Float64.

(* ================================================================== *)
(** * [json.loads]

    The decoder reads the text in one pass: [lex] cuts it into tokens and
    [parse] assembles the tokens with an explicit stack of the containers
    that are still open.  A text the grammar rejects gives [None]; that is
    the only way [json.loads] fails on a string ([JSONDecodeError]).
    Limits of the interpreter (recursion depth, memory, the length of an
    integer literal) are not modelled. *)

Module Json.

Inductive token : Type :=
| TLBrace | TRBrace | TLBrack | TRBrack | TColon | TComma
| TStr (s : pystr)
| TAtom (v : pyval).

(** ** Numbers and the literal names *)

Definition is_digit (c : N) : bool := ((48 <=? c) && (c <=? 57))%N.

Fixpoint span_digits (s : pystr) : pystr * pystr :=
  match s with
  | c :: s' =>
      if is_digit c then let '(ds, rest) := span_digits s' in (c :: ds, rest)
      else ([], s)
  | [] => ([], [])
  end.

Definition digits_value (ds : pystr) : Z :=
  fold_left (fun acc c => (10 * acc + Z.of_N (c - 48))%Z) ds 0%Z.

(** The integer part: [0] or a digit run without a leading zero. *)
Definition int_part (s : pystr) : option (pystr * pystr) :=
  match span_digits s with
  | ([], _) => None
  | (d :: ds, rest) =>
      if N.eqb d (ch "0") then
        match ds with
        | [] => Some ([d], rest)
        | _ => None
        end
      else Some (d :: ds, rest)
  end.

(** An optional fraction: [.] and at least one digit. *)
Definition frac_part (s : pystr) : option (pystr * pystr) :=
  match s with
  | c :: s' =>
      if N.eqb c (ch ".") then
        match span_digits s' with
        | ([], _) => None
        | (ds, rest) => Some (ds, rest)
        end
      else Some ([], s)
  | [] => Some ([], [])
  end.

(** An optional exponent: [e] or [E], a sign, at least one digit.  The
    result is [None] on a malformed exponent, [Some None] when there is
    no exponent. *)
Definition exp_part (s : pystr) : option (option Z * pystr) :=
  match s with
  | c :: s' =>
      if N.eqb c (ch "e") || N.eqb c (ch "E") then
        let '(neg, s'') :=
          match s' with
          | g :: t => if N.eqb g (ch "-") then (true, t)
                      else if N.eqb g (ch "+") then (false, t)
                      else (false, s')
          | [] => (false, s')
          end in
        match span_digits s'' with
        | ([], _) => None
        | (ds, rest) =>
            Some (Some (if neg then (- digits_value ds)%Z else digits_value ds), rest)
        end
      else Some (None, s)
  | [] => Some (None, [])
  end.

(** A number is an [int] when it has neither fraction nor exponent, and
    a [float] otherwise. *)
Definition number (s : pystr) : option pyval :=
  let '(neg, body) :=
    match s with
    | c :: s' => if N.eqb c (ch "-") then (true, s') else (false, s)
    | [] => (false, s)
    end in
  match int_part body with
  | None => None
  | Some (ip, r1) =>
      match frac_part r1 with
      | None => None
      | Some (fp, r2) =>
          match exp_part r2 with
          | Some (ex, []) =>
              match fp, ex with
              | [], None =>
                  Some (PInt (if neg then (- digits_value ip)%Z else digits_value ip))
              | _, _ =>
                  let e := match ex with Some e => e | None => 0%Z end in
                  Some (PFloat
                          (Float64.of_decimal neg (digits_value (ip ++ fp))
                             (e - Z.of_nat (List.length fp))%Z))
              end
          | _ => None
          end
      end
  end.

Definition atom (s : pystr) : option pyval :=
  if str_eqb s (py "null") then Some PNone
  else if str_eqb s (py "true") then Some (PBool true)
  else if str_eqb s (py "false") then Some (PBool false)
  else if str_eqb s (py "NaN") then Some (PFloat S754_nan)
  else if str_eqb s (py "Infinity") then Some (PFloat (S754_infinity false))
  else if str_eqb s (py "-Infinity") then Some (PFloat (S754_infinity true))
  else number s.

(** ** Strings *)

Definition hex_digit (c : N) : option N :=
  if ((48 <=? c) && (c <=? 57))%N then Some (c - 48)%N
  else if ((97 <=? c) && (c <=? 102))%N then Some (c - 87)%N
  else if ((65 <=? c) && (c <=? 70))%N then Some (c - 55)%N
  else None.

Definition escape (c : N) : option N :=
  if N.eqb c quote then Some c
  else if N.eqb c (ch "\") then Some c
  else if N.eqb c (ch "/") then Some c
  else if N.eqb c (ch "b") then Some 8%N
  else if N.eqb c (ch "f") then Some 12%N
  else if N.eqb c (ch "n") then Some 10%N
  else if N.eqb c (ch "r") then Some 13%N
  else if N.eqb c (ch "t") then Some 9%N
  else None.

Definition is_high_surrogate (c : N) : bool := ((55296 <=? c) && (c <=? 56319))%N.
Definition is_low_surrogate (c : N) : bool := ((56320 <=? c) && (c <=? 57343))%N.

(** The characters of a string literal, each with a mark telling whether
    a [\u] escape wrote it: an escaped high surrogate directly followed
    by an escaped low surrogate is one character. *)
Fixpoint join_surrogates (cs : list (N * bool)) : pystr :=
  match cs with
  | [] => []
  | (c, esc) :: cs' =>
      match cs' with
      | (c2, true) :: cs'' =>
          if esc && is_high_surrogate c && is_low_surrogate c2
          then (65536 + (c - 55296) * 1024 + (c2 - 56320))%N :: join_surrogates cs''
          else c :: join_surrogates cs'
      | _ => c :: join_surrogates cs'
      end
  end.

(** ** The lexer *)

Inductive lex_state : Type :=
| LIdle
| LAtom (acc : pystr)                        (* a number or a name, reversed *)
| LStr (acc : list (N * bool))               (* inside a string, reversed *)
| LEsc (acc : list (N * bool))               (* after a backslash *)
| LHex (acc : list (N * bool)) (k : nat) (v : N)  (* in [\u]: [S k] digits to read *)
| LFail.

Definition is_whitespace (c : N) : bool :=
  N.eqb c 32 || N.eqb c 9 || N.eqb c 10 || N.eqb c 13.

Definition punctuation (c : N) : option token :=
  if N.eqb c (ch "{") then Some TLBrace
  else if N.eqb c (ch "}") then Some TRBrace
  else if N.eqb c (ch "[") then Some TLBrack
  else if N.eqb c (ch "]") then Some TRBrack
  else if N.eqb c (ch ":") then Some TColon
  else if N.eqb c (ch ",") then Some TComma
  else None.

(** In the idle state: what a character starts.  [toks] is reversed. *)
Definition lex_idle (toks : list token) (c : N) : lex_state * list token :=
  if is_whitespace c then (LIdle, toks)
  else match punctuation c with
       | Some t => (LIdle, t :: toks)
       | None => if N.eqb c quote then (LStr [], toks) else (LAtom [c], toks)
       end.

Definition lex_step (st : lex_state * list token) (c : N) : lex_state * list token :=
  let '(state, toks) := st in
  match state with
  | LFail => (LFail, toks)
  | LIdle => lex_idle toks c
  | LAtom acc =>
      if is_whitespace c || N.eqb c quote
         || match punctuation c with Some _ => true | None => false end
      then match atom (rev acc) with
           | Some v => lex_idle (TAtom v :: toks) c
           | None => (LFail, toks)
           end
      else (LAtom (c :: acc), toks)
  | LStr acc =>
      if N.eqb c quote then (LIdle, TStr (join_surrogates (rev acc)) :: toks)
      else if N.eqb c (ch "\") then (LEsc acc, toks)
      else if (c <? 32)%N then (LFail, toks)
      else (LStr ((c, false) :: acc), toks)
  | LEsc acc =>
      if N.eqb c (ch "u") then (LHex acc 3 0%N, toks)
      else match escape c with
           | Some x => (LStr ((x, false) :: acc), toks)
           | None => (LFail, toks)
           end
  | LHex acc k v =>
      match hex_digit c with
      | Some d =>
          match k with
          | O => (LStr ((v * 16 + d, true)%N :: acc), toks)
          | S k' => (LHex acc k' (v * 16 + d)%N, toks)
          end
      | None => (LFail, toks)
      end
  end.

Definition lex (s : pystr) : option (list token) :=
  match fold_left lex_step s (LIdle, []) with
  | (LIdle, toks) => Some (rev toks)
  | (LAtom acc, toks) =>
      match atom (rev acc) with
      | Some v => Some (rev (TAtom v :: toks))
      | None => None
      end
  | _ => None
  end.

(** ** The parser *)

(** A container that is still open: the items of an array (reversed),
    or the pairs of an object with the key that awaits its value. *)
Inductive frame : Type :=
| FArr (items : list pyval)
| FObj (pairs : dict) (key : option pystr).

(** What may come next. *)
Inductive expect : Type :=
| EValue          (* a value: at the start, after [:], after [,] in an array *)
| EValueOrClose   (* just after the opening bracket of an array *)
| EKeyOrClose     (* just after the opening brace of an object *)
| EKey            (* after [,] in an object *)
| EColon          (* after a key *)
| EAfter.         (* after a value: [,] or the closing bracket, or the end *)

Record parser : Type := {
  stack : list frame;
  expecting : expect;
  document : option pyval
}.

(** A complete value goes to the innermost open container, or is the
    document. *)
Definition deliver (st : list frame) (v : pyval) : option parser :=
  match st with
  | [] => Some {| stack := []; expecting := EAfter; document := Some v |}
  | FArr items :: st' =>
      Some {| stack := FArr (v :: items) :: st'; expecting := EAfter; document := None |}
  | FObj pairs (Some k) :: st' =>
      Some {| stack := FObj (dict_set pairs k v) None :: st'; expecting := EAfter;
              document := None |}
  | FObj _ None :: _ => None
  end.

Definition open_value (st : list frame) (t : token) : option parser :=
  match t with
  | TAtom v => deliver st v
  | TStr s => deliver st (PStr s)
  | TLBrack => Some {| stack := FArr [] :: st; expecting := EValueOrClose; document := None |}
  | TLBrace => Some {| stack := FObj [] None :: st; expecting := EKeyOrClose; document := None |}
  | _ => None
  end.

Definition set_key (st : list frame) (k : pystr) : option parser :=
  match st with
  | FObj pairs None :: st' =>
      Some {| stack := FObj pairs (Some k) :: st'; expecting := EColon; document := None |}
  | _ => None
  end.

Definition parse_step (p : parser) (t : token) : option parser :=
  let st := stack p in
  match expecting p with
  | EValue => match document p with Some _ => None | None => open_value st t end
  | EValueOrClose =>
      match t, st with
      | TRBrack, FArr [] :: st' => deliver st' (PList [])
      | _, _ => open_value st t
      end
  | EKeyOrClose =>
      match t, st with
      | TRBrace, FObj [] None :: st' => deliver st' (PDict [])
      | TStr k, _ => set_key st k
      | _, _ => None
      end
  | EKey =>
      match t with
      | TStr k => set_key st k
      | _ => None
      end
  | EColon =>
      match t with
      | TColon => Some {| stack := st; expecting := EValue; document := None |}
      | _ => None
      end
  | EAfter =>
      match t, st with
      | TComma, FArr _ :: _ => Some {| stack := st; expecting := EValue; document := None |}
      | TRBrack, FArr items :: st' => deliver st' (PList (rev items))
      | TComma, FObj _ None :: _ => Some {| stack := st; expecting := EKey; document := None |}
      | TRBrace, FObj pairs None :: st' => deliver st' (PDict pairs)
      | _, _ => None
      end
  end.

Fixpoint parse_from (p : parser) (ts : list token) : option pyval :=
  match ts with
  | [] => match stack p with [] => document p | _ => None end
  | t :: ts' =>
      match parse_step p t with
      | Some p' => parse_from p' ts'
      | None => None
      end
  end.

Definition parse (ts : list token) : option pyval :=
  parse_from {| stack := []; expecting := EValue; document := None |} ts.

(** [json.loads] on the text of a string. *)
Definition decode (s : pystr) : option pyval :=
  match lex s with
  | Some ts => parse ts
  | None => None
  end.

(** [json.loads(v)]: anything but a string is a [TypeError] (a JSON
    document holds no [bytes]). *)
Definition loads (v : pyval) : result pyval :=
  match v with
  | PStr s =>
      match decode s with
      | Some x => Ok x
      | None => Raise JSONDecodeError
      end
  | _ => Raise TypeError
  end.

End Json.

(* ================================================================== *)
(** * The program *)

Module HarCleaner.

Definition interesting_patterns : list pystr :=
  map py
    [ "rtm-mcp-server\.vcto-6e7\.workers\.dev";
      "anthropic\.com";
      "/api/.*/chat";
      "/api/.*/mcp/";
      "wss://.*mcp" ]%string.

Definition noise_patterns : list pystr :=
  map py
    [ "\.js$"; "\.css$"; "\.png$"; "\.jpg$"; "\.ico$";
      "/_next/"; "/static/"; "/assets/";
      "intercom\.io"; "amplitude\.com"; "google"; "gtag";
      "fonts\.googleapis\.com"; "wix"; "SearchWix" ]%string.

(** [for pattern in patterns: if re.search(pattern, url, re.IGNORECASE):
    return hit] followed by [otherwise]. *)
Fixpoint first_match (patterns : list pystr) (url : pyval)
    (hit : bool) (otherwise : result bool) : result bool :=
  match patterns with
  | [] => otherwise
  | pattern :: rest =>
      m <- Re.search pattern url ;;
      if m then Ok hit else first_match rest url hit otherwise
  end.

Definition is_interesting_url (url : pyval) : result bool :=
  first_match noise_patterns url false
    (first_match interesting_patterns url true
       (Ok false)).

(** ** [extract_interesting_content] *)

(** Lines 48-53: the request body. *)
Definition request_body (entry : pyval) (cleaned_entry : dict) : result dict :=
  request <- getpath entry ["request"]%string ;;
  has_post_data <- contains (py "postData") request ;;
  has_text <-
    (if has_post_data then
       post_data <- getpath entry ["request"; "postData"]%string ;;
       contains (py "text") post_data
     else Ok false) ;;
  if has_text then
    text <- getpath entry ["request"; "postData"; "text"]%string ;;
    match Json.loads text with
    | Ok post_data => Ok (dict_set cleaned_entry (py "requestBody") post_data)
    | Raise JSONDecodeError =>
        raw <- getpath entry ["request"; "postData"; "text"]%string ;;
        Ok (dict_set cleaned_entry (py "requestBody") raw)
    | Raise e => Raise e
    end
  else Ok cleaned_entry.

(** Lines 56-65: the response body. *)
Definition response_body (entry : pyval) (cleaned_entry : dict) : result dict :=
  response <- getpath entry ["response"]%string ;;
  has_content <- contains (py "content") response ;;
  has_text <-
    (if has_content then
       content <- getpath entry ["response"; "content"]%string ;;
       contains (py "text") content
     else Ok false) ;;
  if has_text then
    response_text <- getpath entry ["response"; "content"; "text"]%string ;;
    if truthy response_text then
      match Json.loads response_text with
      | Ok response_data =>
          Ok (dict_set cleaned_entry (py "responseBody") response_data)
      | Raise JSONDecodeError =>
          n <- len response_text ;;
          if (n <? 10000)%Z
          then Ok (dict_set cleaned_entry (py "responseBody") response_text)
          else Ok cleaned_entry
      | Raise e => Raise e
      end
    else Ok cleaned_entry
  else Ok cleaned_entry.

(** The dict literal [{'type': msg.get('type', 'unknown'), 'time':
    msg.get('time', ''), 'data': data}]; [data] is computed by [k] after
    the first two fields. *)
Definition message_record (msg : pyval) (k : result pyval) : result pyval :=
  type <- get msg (py "type") (PStr (py "unknown")) ;;
  time <- get msg (py "time") (PStr []) ;;
  data <- k ;;
  Ok (PDict [(py "type", type); (py "time", time); (py "data", data)]).

(** Lines 72-78: the body of the [try]. *)
Definition message_try (msg : pyval) (messages : list pyval) : result (list pyval) :=
  has_data <- contains (py "data") msg ;;
  if has_data then
    payload <- getitem msg (py "data") ;;
    data <- Json.loads payload ;;
    record <- message_record msg (Ok data) ;;
    Ok (messages ++ [record])
  else Ok messages.

(** Lines 71-84: one turn of the loop, with its [except] clause. *)
Definition message_step (msg : pyval) (messages : list pyval) : result (list pyval) :=
  match message_try msg messages with
  | Raise JSONDecodeError =>
      record <- message_record msg (get msg (py "data") (PStr [])) ;;
      Ok (messages ++ [record])
  | r => r
  end.

Fixpoint message_loop (msgs : list pyval) (messages : list pyval)
    : result (list pyval) :=
  match msgs with
  | [] => Ok messages
  | msg :: rest =>
      messages' <- message_step msg messages ;;
      message_loop rest messages'
  end.

(** Lines 68-87: the WebSocket messages. *)
Definition websocket_messages (entry : pyval) (cleaned_entry : dict) : result dict :=
  present <- contains (py "_webSocketMessages") entry ;;
  if present then
    source <- getitem entry (py "_webSocketMessages") ;;
    msgs <- iter source ;;
    messages <- message_loop msgs [] ;;
    if truthy (PList messages)
    then Ok (dict_set cleaned_entry (py "webSocketMessages") (PList messages))
    else Ok cleaned_entry
  else Ok cleaned_entry.

Definition extract_interesting_content (entry : pyval) : result pyval :=
  url <- getpath entry ["request"; "url"]%string ;;
  method <- getpath entry ["request"; "method"]%string ;;
  status <- getpath entry ["response"; "status"]%string ;;
  started <- getpath entry ["startedDateTime"]%string ;;
  let cleaned_entry :=
    [ (py "url", url); (py "method", method); (py "status", status);
      (py "startedDateTime", started) ] in
  cleaned_entry <- request_body entry cleaned_entry ;;
  cleaned_entry <- response_body entry cleaned_entry ;;
  cleaned_entry <- websocket_messages entry cleaned_entry ;;
  Ok (PDict cleaned_entry).

(** ** [clean_har_file] *)

(** A file holds a text, or the text [json.dump(doc, f, indent=2,
    ensure_ascii=False)] writes; the latter is kept as the document
    itself, which is also what [json.load] reads back from it. *)
Inductive file : Type :=
| Text (s : pystr)
| Dumped (doc : pyval).

Definition filesystem := pystr -> option file.

Definition open_read (fs : filesystem) (path : pystr) : result file :=
  match fs path with
  | Some f => Ok f
  | None => Raise FileNotFoundError
  end.

Definition write (fs : filesystem) (path : pystr) (f : file) : filesystem :=
  fun p => if str_eqb p path then Some f else fs p.

Definition json_load (f : file) : result pyval :=
  match f with
  | Text s => Json.loads (PStr s)
  | Dumped doc => Ok doc
  end.

(** Lines 98-103: the loop over the entries. *)
Fixpoint clean_loop (entries : list pyval) (cleaned_entries : list pyval)
    : result (list pyval) :=
  match entries with
  | [] => Ok cleaned_entries
  | entry :: rest =>
      url <- getpath entry ["request"; "url"]%string ;;
      interesting <- is_interesting_url url ;;
      if interesting then
        cleaned_entry <- extract_interesting_content entry ;;
        clean_loop rest (cleaned_entries ++ [cleaned_entry])
      else clean_loop rest cleaned_entries
  end.

(** Line 114: [f"{(1 - kept / original) * 100:.1f}%"]. *)
Definition reduction_value (kept original : Z) : result spec_float :=
  q <- Float64.int_truediv kept original ;;
  Ok (Float64.mul (Float64.sub (Float64.of_int 1) q) (Float64.of_int 100)).

Definition reduction_ratio (kept original : Z) : result pystr :=
  v <- reduction_value kept original ;;
  Ok (Float64.format_1f v ++ py "%").

Definition original_count (har_data : pyval) : result Z :=
  entries <- getpath har_data ["log"; "entries"]%string ;;
  len entries.

(** Lines 106-116: the report. *)
Definition build_report (har_data : pyval) (cleaned_entries : list pyval)
    : result pyval :=
  let total := Z.of_nat (List.length cleaned_entries) in
  original <- original_count har_data ;;
  original' <- original_count har_data ;;
  ratio <- reduction_ratio total original' ;;
  Ok (PDict
        [ (py "version", PStr (py "1.0"));
          (py "creator", PStr (py "HAR Cleaner"));
          (py "description",
           PStr (py "Cleaned HAR file containing only interesting API calls and MCP interactions"));
          (py "entries", PList cleaned_entries);
          (py "summary",
           PDict [ (py "total_entries", PInt total);
                   (py "original_entries", PInt original);
                   (py "reduction_ratio", PStr ratio) ]) ]).

(** Lines 93-116, everything before the output file is opened. *)
Definition cleaned_har (fs : filesystem) (input_path : pystr) : result pyval :=
  f <- open_read fs input_path ;;
  har_data <- json_load f ;;
  entries <- getpath har_data ["log"; "entries"]%string ;;
  items <- iter entries ;;
  cleaned_entries <- clean_loop items [] ;;
  build_report har_data cleaned_entries.

(** The run: the outcome and the file system it leaves.  The three
    lines printed on success are not part of the model. *)
Definition clean_har_file (fs : filesystem) (input_path output_path : pystr)
    : result unit * filesystem :=
  match cleaned_har fs input_path with
  | Ok doc => (Ok tt, write fs output_path (Dumped doc))
  | Raise e => (Raise e, fs)
  end.

End HarCleaner.

Import HarCleaner.

(* ================================================================== *)
(** * The vocabulary of the specification

    The definitions of this part do not come from the program: they say,
    in the words of its specification, which inputs are meant and what
    the output should hold.  The theorems compare them with the program. *)

Module Har.

(** [url] matches one of [patterns]. *)
Definition matches_some (patterns : list pystr) (url : pystr) : Prop :=
  exists pattern, In pattern patterns /\ Re.search pattern (PStr url) = Ok true.

Definition matches_none (patterns : list pystr) (url : pystr) : Prop :=
  forall pattern, In pattern patterns -> Re.search pattern (PStr url) = Ok false.

(** The entry exposes [request.url], [request.method],
    [response.status] and [startedDateTime]. *)
Definition has_required_fields (entry : pyval) : bool :=
  match getpath entry ["request"; "url"]%string,
        getpath entry ["request"; "method"]%string,
        getpath entry ["response"; "status"]%string,
        getpath entry ["startedDateTime"]%string with
  | Ok _, Ok _, Ok _, Ok _ => true
  | _, _, _, _ => false
  end.

(** Under [key], the object [parent] has nothing, or an object whose
    [text] is absent or a string. *)
Definition optional_text (parent : pyval) (key : string) : bool :=
  match parent with
  | PDict d =>
      match dict_get (py key) d with
      | None => true
      | Some (PDict c) =>
          match dict_get (py "text") c with
          | None | Some (PStr _) => true
          | Some _ => false
          end
      | Some _ => false
      end
  | _ => false
  end.

(** A WebSocket message: an object whose [data] is absent or a string. *)
Definition message (msg : pyval) : bool :=
  match msg with
  | PDict m =>
      match dict_get (py "data") m with
      | None | Some (PStr _) => true
      | Some _ => false
      end
  | _ => false
  end.

Definition optional_messages (entry : pyval) : bool :=
  match entry with
  | PDict d =>
      match dict_get (py "_webSocketMessages") d with
      | None => true
      | Some (PList msgs) => forallb message msgs
      | Some _ => false
      end
  | _ => false
  end.

(** An entry with the types of the HAR format: the required fields, and
    optional fields that are text where they are present. *)
Definition entry (e : pyval) : bool :=
  has_required_fields e
  && match getpath e ["request"]%string with
     | Ok r => optional_text r "postData"
     | Raise _ => false
     end
  && match getpath e ["response"]%string with
     | Ok r => optional_text r "content"
     | Raise _ => false
     end
  && optional_messages e.

(** The textual payloads of an entry and its message sequence. *)
Definition request_text (e : pyval) : option pystr :=
  match getpath e ["request"; "postData"; "text"]%string with
  | Ok (PStr s) => Some s
  | _ => None
  end.

Definition response_text (e : pyval) : option pystr :=
  match getpath e ["response"; "content"; "text"]%string with
  | Ok (PStr s) => Some s
  | _ => None
  end.

Definition source_messages (e : pyval) : list pyval :=
  match getpath e ["_webSocketMessages"]%string with
  | Ok (PList msgs) => msgs
  | _ => []
  end.

(** The decoded structure of a text, or the text itself. *)
Definition decoded_or_raw (s : pystr) : pyval :=
  match Json.decode s with
  | Some v => v
  | None => PStr s
  end.

Definition field_or (m : dict) (key : string) (default : pystr) : pyval :=
  match dict_get (py key) m with
  | Some v => v
  | None => PStr default
  end.

(** What the specification asks of each optional field. *)
Definition request_body_of (e : pyval) : option pyval :=
  option_map decoded_or_raw (request_text e).

Definition response_body_of (e : pyval) : option pyval :=
  match response_text e with
  | Some s =>
      if truthy (PStr s) then
        match Json.decode s with
        | Some v => Some v
        | None => if (Z.of_nat (List.length s) <? 10000)%Z then Some (PStr s) else None
        end
      else None
  | None => None
  end.

(** The normalized messages of one source message: none when it carries
    no [data], one otherwise. *)
Definition normalized (msg : pyval) : list pyval :=
  match msg with
  | PDict m =>
      match dict_get (py "data") m with
      | Some (PStr s) =>
          [ PDict [ (py "type", field_or m "type" (py "unknown"));
                    (py "time", field_or m "time" []);
                    (py "data", decoded_or_raw s) ] ]
      | _ => []
      end
  | _ => []
  end.

Definition messages_of (e : pyval) : option pyval :=
  match flat_map normalized (source_messages e) with
  | [] => None
  | ms => Some (PList ms)
  end.

Definition set_optional (d : dict) (key : string) (o : option pyval) : dict :=
  match o with
  | Some v => dict_set d (py key) v
  | None => d
  end.

(** The normalized record of an entry, given its four required values. *)
Definition record_of (e url method status started : pyval) : dict :=
  set_optional
    (set_optional
       (set_optional
          [ (py "url", url); (py "method", method); (py "status", status);
            (py "startedDateTime", started) ]
          "requestBody" (request_body_of e))
       "responseBody" (response_body_of e))
    "webSocketMessages" (messages_of e).

(** The loop keeps an entry when its URL is interesting. *)
Definition kept (e : pyval) : bool :=
  match getpath e ["request"; "url"]%string with
  | Ok url =>
      match is_interesting_url url with
      | Ok b => b
      | Raise _ => false
      end
  | Raise _ => false
  end.

(** The document a run reads and the entries it visits. *)
Definition input_document (fs : filesystem) (input_path : pystr) : result pyval :=
  f <- open_read fs input_path ;;
  json_load f.

Definition input_entries (har_data : pyval) : result (list pyval) :=
  entries <- getpath har_data ["log"; "entries"]%string ;;
  iter entries.

Definition summary_field (report : pyval) (key : string) : result pyval :=
  getpath report ["summary"; key]%string.

(** Some pattern of the list is found in [url]. *)
Definition found (url : pystr) (patterns : list pystr) : bool :=
  existsb (fun pattern => Re.search_from (Re.compile pattern) url) patterns.

(** [record] is what the extractor returns on [e]. *)
Definition extracts_to (e record : pyval) : Prop :=
  extract_interesting_content e = Ok record.

End Har.

(* ================================================================== *)
(** * Examples used by the theorems *)

Module Examples.

Open Scope string_scope.

Definition entry_with (url : string) (request_extra response_extra extra : dict) : pyval :=
  PDict
    ([ (py "request",
        PDict ([ (py "url", PStr (py url)); (py "method", PStr (py "POST")) ]
               ++ request_extra)%list);
       (py "response", PDict ((py "status", PInt 200) :: response_extra));
       (py "startedDateTime", PStr (py "t1")) ] ++ extra)%list.

Definition text_of (key : string) (text : pyval) : dict :=
  [ (py key, PDict [ (py "text", text) ]) ].

Definition chat_url : string := "https://anthropic.com/api/v1/chat".

(** The two entries of the end-to-end example of the specification. *)
Definition chat_entry : pyval :=
  entry_with chat_url (text_of "postData" (PStr (js "{'x':1}"))) [] [].

Definition font_entry : pyval :=
  entry_with "https://fonts.googleapis.com/x.css" [] [] [].

Definition document_of (entries : list pyval) : pyval :=
  PDict [ (py "log", PDict [ (py "entries", PList entries) ]) ].

Definition one_file (path : pystr) (f : file) : filesystem :=
  fun p => if str_eqb p path then Some f else None.

Definition input_path : pystr := py "capture.har".
Definition output_path : pystr := py "cleaned.json".

Definition two_entries : filesystem :=
  one_file input_path (Dumped (document_of [chat_entry; font_entry])).

Definition no_entries : filesystem :=
  one_file input_path (Text (js "{'log': {'entries': []}}")).

(** Bodies that are not JSON: a short one and one of 10,000 characters. *)
Definition short_text : pystr := py "not json".
Definition long_text : pystr := repeat (ch "x") 10000.

Definition undecodable_entry : pyval :=
  entry_with chat_url
    (text_of "postData" (PStr long_text))
    (text_of "content" (PStr long_text)) [].



(** A request body whose text is [null], not a string. *)
Definition null_text_entry : pyval :=
  entry_with chat_url (text_of "postData" PNone) [] [].

(** A request body whose text is empty. *)
Definition empty_text_entry : pyval :=
  entry_with chat_url (text_of "postData" (PStr [])) [] [].

(** A message sequence with one message that carries no [data]. *)
Definition no_data_message : pyval :=
  PDict [ (py "type", PStr (py "send")); (py "time", PInt 1) ].


(** Three messages: JSON data, data that is not JSON and no type, no
    data. *)
Definition mixed_messages_entry : pyval :=
  entry_with chat_url [] []
    [ (py "_webSocketMessages",
       PList [ PDict [ (py "type", PStr (py "receive")); (py "time", PInt 2);
                       (py "data", PStr (py "[1]")) ];
               PDict [ (py "data", PStr short_text) ];
               no_data_message ]) ].

End Examples.

(* ================================================================== *)
(** * Further vocabulary

    Names for the statements of the last part of this file. *)

Module More.

Import Har.

(** The keys a normalized record always has, and the keys it may have,
    in the order in which the extractor sets them. *)
Definition required_keys : list pystr :=
  map py ["url"; "method"; "status"; "startedDateTime"]%string.

Definition optional_keys (request response messages : bool) : list pystr :=
  ((if request then [py "requestBody"] else [])
   ++ (if response then [py "responseBody"] else [])
   ++ (if messages then [py "webSocketMessages"] else []))%list.

(** The message has a [data] key. *)
Definition has_data (msg : pyval) : bool :=
  match msg with
  | PDict m => dict_has (py "data") m
  | _ => false
  end.

Definition is_text (v : pyval) : bool :=
  match v with
  | PStr _ => true
  | _ => false
  end.


(** ASCII upper case. *)
Definition upper_char (c : N) : N :=
  if ((97 <=? c) && (c <=? 122))%N then (c - 32)%N else c.

Definition upper (s : pystr) : pystr := map upper_char s.

(** The pattern has no [$]. *)
Definition unanchored (r : Re.regex) : bool :=
  forallb (fun n => match n with Re.Eos => false | _ => true end) r.

Definition unanchored_pattern (p : pystr) : bool := unanchored (Re.compile p).

(** The pattern of a literal text. *)
Definition literal (s : pystr) : Re.regex := map Re.Lit s.

(** The noise patterns without the two that others subsume. *)
Definition noise_patterns_needed : list pystr :=
  map py
    [ "\.js$"; "\.css$"; "\.png$"; "\.jpg$"; "\.ico$";
      "/_next/"; "/static/"; "/assets/";
      "intercom\.io"; "amplitude\.com"; "google"; "gtag"; "wix" ]%string.

(** The file extensions and the fragments that the noise patterns
    name. *)
Definition noise_extensions : list pystr :=
  map py [ ".js"; ".css"; ".png"; ".jpg"; ".ico" ]%string.

Definition noise_fragments : list pystr :=
  map py
    [ "/_next/"; "/static/"; "/assets/"; "intercom.io"; "amplitude.com";
      "google"; "gtag"; "fonts.googleapis.com"; "wix"; "SearchWix" ]%string.


(** The record of [Examples.chat_entry], and entries that lack a
    required field or hold a value of the wrong type. *)
Definition chat_record : pyval :=
  PDict [ (py "url", PStr (py Examples.chat_url));
          (py "method", PStr (py "POST"));
          (py "status", PInt 200);
          (py "startedDateTime", PStr (py "t1"));
          (py "requestBody", PDict [ (py "x", PInt 1) ]) ].

Definition no_response_entry : pyval :=
  PDict [ (py "request",
           PDict [ (py "url", PStr (py Examples.chat_url));
                   (py "method", PStr (py "POST")) ]);
          (py "startedDateTime", PStr (py "t1")) ].

Definition null_response_text_entry : pyval :=
  Examples.entry_with Examples.chat_url [] (Examples.text_of "content" PNone) [].

Definition number_response_text_entry : pyval :=
  Examples.entry_with Examples.chat_url [] (Examples.text_of "content" (PInt 7)) [].


(** A capture of three entries: the first and the last are kept. *)
Definition three_entries : filesystem :=
  Examples.one_file Examples.input_path
    (Dumped (Examples.document_of
               [Examples.chat_entry; Examples.font_entry; Examples.mixed_messages_entry])).

(** A capture whose second entry has no URL. *)
Definition no_url_entry : pyval := PDict [ (py "request", PDict []) ].

End More.

(* ================================================================== *)
(** * Theorems *)

Import Har.

(** ** The classifier *)

Section Classifier.

Variable url : pystr.

Lemma first_match_found (patterns : list pystr) (hit : bool) (otherwise : result bool) :
  first_match patterns (PStr url) hit otherwise =
  if found url patterns then Ok hit else otherwise.
Proof.
  unfold found.
  induction patterns as [|pattern rest IH]; simpl; [reflexivity|].
  destruct (Re.search_from (Re.compile pattern) url); simpl; [reflexivity|].
  exact IH.
Qed.

Lemma found_matches_some (patterns : list pystr) :
  found url patterns = true <-> matches_some patterns url.
Proof.
  unfold found, matches_some. rewrite existsb_exists.
  split; intros [pattern [Hin Hm]]; exists pattern; split; trivial.
  - simpl. now rewrite Hm.
  - simpl in Hm. now injection Hm.
Qed.

Lemma found_matches_none (patterns : list pystr) :
  found url patterns = false <-> matches_none patterns url.
Proof.
  unfold found, matches_none. split.
  - intros H pattern Hin. simpl. f_equal.
    destruct (Re.search_from (Re.compile pattern) url) eqn:E; trivial.
    assert (existsb (fun p => Re.search_from (Re.compile p) url) patterns = true)
      by (apply existsb_exists; eauto).
    congruence.
  - intros H. apply not_true_is_false. intros Ht.
    apply existsb_exists in Ht. destruct Ht as [pattern [Hin Hm]].
    specialize (H pattern Hin). simpl in H. congruence.
Qed.

Lemma is_interesting_url_found :
  is_interesting_url (PStr url) =
  Ok (negb (found url noise_patterns) && found url interesting_patterns).
Proof.
  unfold is_interesting_url. rewrite !first_match_found.
  destruct (found url noise_patterns), (found url interesting_patterns); reflexivity.
Qed.

End Classifier.

(** C1.  For every URL string, [is_interesting_url] returns true exactly
    when the URL matches (ignoring case) at least one interest pattern
    and no noise pattern; a URL that matches a noise pattern gives false
    whatever else it matches, and so does a URL that matches no interest
    pattern. *)
Theorem C1_interesting_iff_interest_and_no_noise (url : pystr) :
  exists b : bool,
    is_interesting_url (PStr url) = Ok b /\
    (b = true <->
     matches_some interesting_patterns url /\ matches_none noise_patterns url) /\
    (matches_some noise_patterns url -> b = false) /\
    (matches_none interesting_patterns url -> b = false).
Proof.
  exists (negb (found url noise_patterns) && found url interesting_patterns).
  split; [apply is_interesting_url_found|].
  rewrite <- !found_matches_some, <- !found_matches_none.
  destruct (found url noise_patterns), (found url interesting_patterns);
    simpl; intuition congruence.
Qed.

Example is_interesting_url_noise_first :
  is_interesting_url (PStr (py "https://anthropic.com/static/app.js")) = Ok false.
Proof. vm_compute. reflexivity. Qed.

Example is_interesting_url_mcp_server :
  is_interesting_url
    (PStr (py "https://rtm-mcp-server.vcto-6e7.workers.dev/api/v1/mcp/connect"))
  = Ok true.
Proof. vm_compute. reflexivity. Qed.

Example is_interesting_url_neither :
  is_interesting_url (PStr (py "https://example.com/about")) = Ok false.
Proof. vm_compute. reflexivity. Qed.

Example is_interesting_url_ignores_case :
  is_interesting_url (PStr (py "HTTPS://ANTHROPIC.COM/API/V1/CHAT")) = Ok true.
Proof. vm_compute. reflexivity. Qed.

Example is_interesting_url_not_a_string :
  is_interesting_url PNone = Raise TypeError.
Proof. reflexivity. Qed.

(** ** Dicts *)

Lemma str_eqb_refl (k : pystr) : str_eqb k k = true.
Proof. induction k as [|c k IH]; simpl; [reflexivity|]. now rewrite N.eqb_refl. Qed.

Lemma str_eqb_eq (a b : pystr) : str_eqb a b = true -> a = b.
Proof.
  revert b. induction a as [|x a IH]; destruct b as [|y b]; simpl; try discriminate; trivial.
  intros H. apply andb_prop in H. destruct H as [Hx Hab].
  apply N.eqb_eq in Hx. subst. f_equal. now apply IH.
Qed.

Lemma dict_get_set_same (d : dict) (k : pystr) (v : pyval) :
  dict_get k (dict_set d k v) = Some v.
Proof.
  induction d as [|[k' v'] d IH]; simpl.
  - now rewrite str_eqb_refl.
  - destruct (str_eqb k k') eqn:E; simpl; rewrite E; [reflexivity | exact IH].
Qed.

Lemma dict_get_set_other (d : dict) (k k' : pystr) (v : pyval) :
  str_eqb k k' = false -> dict_get k (dict_set d k' v) = dict_get k d.
Proof.
  intros Hk. induction d as [|[k0 v0] d IH]; simpl.
  - now rewrite Hk.
  - destruct (str_eqb k' k0) eqn:E; simpl.
    + apply str_eqb_eq in E. subst k0. now rewrite Hk.
    + now rewrite IH.
Qed.

Lemma dict_get_set_optional_other (d : dict) (k : pystr) (key : string) (o : option pyval) :
  str_eqb k (py key) = false -> dict_get k (set_optional d key o) = dict_get k d.
Proof. destruct o; simpl; [apply dict_get_set_other | reflexivity]. Qed.

Lemma dict_get_set_optional_same (d : dict) (key : string) (o : option pyval) :
  dict_get (py key) d = None -> dict_get (py key) (set_optional d key o) = o.
Proof. destruct o; simpl; [intros _; apply dict_get_set_same | trivial]. Qed.

(** ** Paths *)

Lemma getpath_one (v : pyval) (k : string) : getpath v [k] = getitem v (py k).
Proof. simpl. now destruct (getitem v (py k)). Qed.

Lemma getpath_cons (v x : pyval) (k : string) (ks : list string) :
  getitem v (py k) = Ok x -> getpath v (k :: ks) = getpath x ks.
Proof. intros H. simpl. now rewrite H. Qed.

Lemma getitem_dict (d : dict) (k : pystr) (x : pyval) :
  dict_get k d = Some x -> getitem (PDict d) k = Ok x.
Proof. intros H. simpl. now rewrite H. Qed.

Lemma getitem_ok_dict (v x : pyval) (k : pystr) :
  getitem v k = Ok x -> exists d, v = PDict d /\ dict_get k d = Some x.
Proof.
  destruct v; simpl; try discriminate.
  destruct (dict_get k d) eqn:E; [|discriminate].
  intros H. injection H as <-. eauto.
Qed.

(** ** The three optional fields *)

Section Fields.

Variable e : pyval.
Variable cleaned_entry : dict.

Lemma request_body_typed (r : pyval) :
  getpath e ["request"]%string = Ok r ->
  optional_text r "postData" = true ->
  request_body e cleaned_entry =
  Ok (set_optional cleaned_entry "requestBody" (request_body_of e)).
Proof.
  intros Hr Ht.
  unfold request_body, request_body_of, request_text.
  rewrite Hr. rewrite getpath_one in Hr.
  destruct r as [| | | | | |rq]; try discriminate Ht.
  unfold optional_text in Ht. cbn [bind contains]. unfold dict_has.
  destruct (dict_get (py "postData") rq) as [pd|] eqn:Epd.
  - destruct pd as [| | | | | |c]; try discriminate Ht.
    rewrite !(@getpath_cons _ _ _ _ Hr), !(@getpath_cons _ _ _ _ (@getitem_dict _ _ _ Epd)).
    cbn [bind contains getpath]. unfold dict_has.
    destruct (dict_get (py "text") c) as [t|] eqn:Et.
    + destruct t as [| | | |s| |]; try discriminate Ht.
      rewrite (@getitem_dict _ _ _ Et). cbn [bind option_map set_optional].
      unfold Json.loads, decoded_or_raw.
      destruct (Json.decode s); reflexivity.
    + simpl. rewrite Et. reflexivity.
  - rewrite (@getpath_cons _ _ _ _ Hr). simpl. rewrite Epd. reflexivity.
Qed.

Lemma response_body_typed (r : pyval) :
  getpath e ["response"]%string = Ok r ->
  optional_text r "content" = true ->
  response_body e cleaned_entry =
  Ok (set_optional cleaned_entry "responseBody" (response_body_of e)).
Proof.
  intros Hr Ht.
  unfold response_body, response_body_of, response_text.
  rewrite Hr. rewrite getpath_one in Hr.
  destruct r as [| | | | | |rs]; try discriminate Ht.
  unfold optional_text in Ht. cbn [bind contains]. unfold dict_has.
  destruct (dict_get (py "content") rs) as [ct|] eqn:Ect.
  - destruct ct as [| | | | | |c]; try discriminate Ht.
    rewrite !(@getpath_cons _ _ _ _ Hr), !(@getpath_cons _ _ _ _ (@getitem_dict _ _ _ Ect)).
    cbn [bind contains getpath]. unfold dict_has.
    destruct (dict_get (py "text") c) as [t|] eqn:Et.
    + destruct t as [| | | |s| |]; try discriminate Ht.
      rewrite (@getitem_dict _ _ _ Et). cbn [bind].
      destruct (truthy (PStr s)); [|reflexivity].
      unfold Json.loads.
      destruct (Json.decode s); [reflexivity|].
      cbn [len bind].
      destruct (Z.of_nat (List.length s) <? 10000)%Z; reflexivity.
    + simpl. rewrite Et. reflexivity.
  - rewrite (@getpath_cons _ _ _ _ Hr). simpl. rewrite Ect. reflexivity.
Qed.

End Fields.

Lemma message_step_typed (msg : pyval) (messages : list pyval) :
  message msg = true ->
  message_step msg messages = Ok (messages ++ normalized msg).
Proof.
  intros Hm. destruct msg as [| | | | | |m]; try discriminate Hm.
  unfold message in Hm. unfold message_step, message_try, normalized.
  cbn [contains bind getitem]. unfold dict_has.
  destruct (dict_get (py "data") m) as [payload|] eqn:Ed.
  - destruct payload as [| | | |s| |]; try discriminate Hm.
    unfold Json.loads, decoded_or_raw, message_record, field_or.
    cbn [get bind]. rewrite Ed.
    destruct (Json.decode s);
      destruct (dict_get (py "type") m), (dict_get (py "time") m); reflexivity.
  - now rewrite app_nil_r.
Qed.

Lemma message_loop_typed (msgs messages : list pyval) :
  forallb message msgs = true ->
  message_loop msgs messages = Ok (messages ++ flat_map normalized msgs).
Proof.
  revert messages. induction msgs as [|msg rest IH]; intros messages Hall; simpl.
  - now rewrite app_nil_r.
  - simpl in Hall. apply andb_prop in Hall. destruct Hall as [Hm Hrest].
    rewrite (@message_step_typed _ _ Hm). cbn [bind].
    rewrite (IH _ Hrest). now rewrite <- app_assoc.
Qed.

Lemma websocket_messages_typed (e : pyval) (cleaned_entry : dict) :
  optional_messages e = true ->
  websocket_messages e cleaned_entry =
  Ok (set_optional cleaned_entry "webSocketMessages" (messages_of e)).
Proof.
  intros Hm. destruct e as [| | | | | |d]; try discriminate Hm.
  unfold optional_messages in Hm.
  unfold websocket_messages, messages_of, source_messages.
  rewrite getpath_one. cbn [contains bind getitem]. unfold dict_has.
  destruct (dict_get (py "_webSocketMessages") d) as [source|] eqn:Es; [|reflexivity].
  destruct source as [| | | | |msgs|]; try discriminate Hm.
  cbn [iter bind]. rewrite (@message_loop_typed _ _ Hm). cbn [bind app].
  destruct (flat_map normalized msgs); reflexivity.
Qed.

(** ** The extractor on an entry of the HAR format *)

Lemma extract_typed (e : pyval) :
  Har.entry e = true ->
  exists url method status started,
    getpath e ["request"; "url"]%string = Ok url /\
    getpath e ["request"; "method"]%string = Ok method /\
    getpath e ["response"; "status"]%string = Ok status /\
    getpath e ["startedDateTime"]%string = Ok started /\
    extract_interesting_content e = Ok (PDict (record_of e url method status started)).
Proof.
  unfold Har.entry, has_required_fields. intros H.
  apply andb_prop in H. destruct H as [H Hws].
  apply andb_prop in H. destruct H as [H Hresp].
  apply andb_prop in H. destruct H as [Hreq Hpost].
  destruct (getpath e ["request"; "url"]%string) as [url|] eqn:E1; [|discriminate].
  destruct (getpath e ["request"; "method"]%string) as [method|] eqn:E2; [|discriminate].
  destruct (getpath e ["response"; "status"]%string) as [status|] eqn:E3; [|discriminate].
  destruct (getpath e ["startedDateTime"]%string) as [started|] eqn:E4; [|discriminate].
  destruct (getpath e ["request"]%string) as [r|] eqn:Er; [|discriminate].
  destruct (getpath e ["response"]%string) as [r'|] eqn:Er'; [|discriminate].
  exists url, method, status, started. repeat split; trivial.
  unfold extract_interesting_content, record_of.
  rewrite E1, E2, E3, E4. cbn [bind].
  rewrite (@request_body_typed _ _ _ Er Hpost). cbn [bind].
  rewrite (@response_body_typed _ _ _ Er' Hresp). cbn [bind].
  rewrite (@websocket_messages_typed _ _ Hws). reflexivity.
Qed.


Lemma record_response_body (e url method status started : pyval) :
  dict_get (py "responseBody") (record_of e url method status started) = response_body_of e.
Proof.
  unfold record_of.
  rewrite dict_get_set_optional_other by reflexivity.
  apply dict_get_set_optional_same.
  now rewrite dict_get_set_optional_other by reflexivity.
Qed.




Example undecodable_entry_record :
  exists record,
    extract_interesting_content Examples.undecodable_entry = Ok (PDict record) /\
    dict_get (py "requestBody") record = Some (PStr Examples.long_text) /\
    dict_get (py "responseBody") record = None.
Proof. eexists. vm_compute. repeat split. Qed.




Example mixed_messages_record :
  exists record,
    extract_interesting_content Examples.mixed_messages_entry = Ok (PDict record) /\
    dict_get (py "webSocketMessages") record =
    Some (PList
            [ PDict [ (py "type", PStr (py "receive")); (py "time", PInt 2);
                      (py "data", PList [PInt 1]) ];
              PDict [ (py "type", PStr (py "unknown")); (py "time", PStr []);
                      (py "data", PStr Examples.short_text) ] ]).
Proof. eexists. vm_compute. split; reflexivity. Qed.




(** C8.  The program at an entry whose request text is present and
    empty: the record has a request body, the empty text. *)
Theorem C8_empty_request_text_is_stored :
  Har.entry Examples.empty_text_entry = true /\
  request_text Examples.empty_text_entry = Some [] /\
  exists record,
    extract_interesting_content Examples.empty_text_entry = Ok (PDict record) /\
    dict_get (py "requestBody") record = Some (PStr []).
Proof.
  split; [vm_compute; reflexivity|].
  split; [vm_compute; reflexivity|].
  eexists. vm_compute. split; reflexivity.
Qed.

(** The two other optional fields do obey the invariant: an empty
    response text and a message sequence that normalizes to nothing give
    no field. *)
Lemma empty_response_text_dropped (e : pyval) :
  Har.entry e = true ->
  response_text e = Some [] ->
  exists record,
    extract_interesting_content e = Ok (PDict record) /\
    dict_get (py "responseBody") record = None.
Proof.
  intros He Hs.
  destruct (extract_typed e He) as (url & method & status & started & _ & _ & _ & _ & Hx).
  eexists. split; [exact Hx|].
  rewrite record_response_body. unfold response_body_of. now rewrite Hs.
Qed.



(** ** The loop over the entries *)

Lemma clean_loop_kept (entries cleaned_entries out : list pyval) :
  clean_loop entries cleaned_entries = Ok out ->
  exists records,
    out = cleaned_entries ++ records /\
    Forall2 extracts_to (filter kept entries) records.
Proof.
  revert cleaned_entries.
  induction entries as [|e rest IH]; intros cleaned_entries H; cbn [clean_loop] in H.
  - injection H as <-. exists []. split; [now rewrite app_nil_r | constructor].
  - cbn [filter]. unfold kept at 1.
    destruct (getpath e ["request"; "url"]%string) as [url|]; [|discriminate].
    cbn [bind] in H.
    destruct (is_interesting_url url) as [[|]|]; cbn [bind] in H; try discriminate.
    + destruct (extract_interesting_content e) as [record|] eqn:Ex; [|discriminate].
      cbn [bind] in H. destruct (IH _ H) as (records & -> & Hall).
      exists (record :: records). split.
      * now rewrite <- app_assoc.
      * constructor; trivial.
    + exact (IH _ H).
Qed.

Lemma iter_len (v : pyval) (items : list pyval) :
  iter v = Ok items -> len v = Ok (Z.of_nat (List.length items)).
Proof.
  destruct v; simpl; try discriminate; intros H; injection H as <-;
    now rewrite ?length_map.
Qed.

(** What a run that reaches the report has computed. *)
Lemma cleaned_har_inv (fs : filesystem) (input_path : pystr) (report : pyval) :
  cleaned_har fs input_path = Ok report ->
  exists har_data entries records ratio,
    input_document fs input_path = Ok har_data /\
    input_entries har_data = Ok entries /\
    Forall2 extracts_to (filter kept entries) records /\
    reduction_ratio (Z.of_nat (List.length records)) (Z.of_nat (List.length entries))
    = Ok ratio /\
    getpath report ["entries"]%string = Ok (PList records) /\
    summary_field report "total_entries" = Ok (PInt (Z.of_nat (List.length records))) /\
    summary_field report "original_entries" = Ok (PInt (Z.of_nat (List.length entries))) /\
    summary_field report "reduction_ratio" = Ok (PStr ratio).
Proof.
  unfold cleaned_har, input_document, input_entries, build_report, original_count.
  intros H.
  destruct (open_read fs input_path) as [f|]; [|discriminate]. cbn [bind] in *.
  destruct (json_load f) as [har_data|]; [|discriminate]. cbn [bind] in *.
  destruct (getpath har_data ["log"; "entries"]%string) as [source|] eqn:Es;
    [|discriminate].
  cbn [bind] in *.
  destruct (iter source) as [entries|] eqn:Ei; [|discriminate]. cbn [bind] in *.
  destruct (clean_loop entries []) as [out|] eqn:El; [|discriminate]. cbn [bind] in *.
  rewrite (@iter_len _ _ Ei) in H. cbn [bind] in H.
  destruct (@clean_loop_kept _ _ _ El) as (records & -> & Hall). simpl app in *.
  destruct (reduction_ratio _ _) as [ratio|] eqn:Er; [|discriminate]. cbn [bind] in H.
  injection H as <-.
  exists har_data, entries, records, ratio.
  rewrite Es. cbn [bind].
  repeat split; try assumption; reflexivity.
Qed.

(** C2.  In a run that writes its report, the entries of the report are
    the normalized records of the source entries whose URL is
    interesting, one for each of them and in the order of the source. *)
Theorem C2_records_are_the_interesting_entries_in_order
    (fs : filesystem) (input_path output_path : pystr) :
  fst (clean_har_file fs input_path output_path) = Ok tt ->
  exists har_data entries report records,
    input_document fs input_path = Ok har_data /\
    input_entries har_data = Ok entries /\
    snd (clean_har_file fs input_path output_path)
    = write fs output_path (Dumped report) /\
    getpath report ["entries"]%string = Ok (PList records) /\
    Forall2 extracts_to (filter kept entries) records.
Proof.
  unfold clean_har_file.
  destruct (cleaned_har fs input_path) as [report|] eqn:Hc; [|discriminate].
  intros _.
  destruct (@cleaned_har_inv _ _ _ Hc)
    as (har_data & entries & records & ratio & Hd & He & Hall & _ & Hr & _).
  exists har_data, entries, report, records. repeat split; trivial.
Qed.

Lemma C2_witness :
  exists har_data entries report records,
    input_document Examples.two_entries Examples.input_path = Ok har_data /\
    input_entries har_data = Ok entries /\
    snd (clean_har_file Examples.two_entries Examples.input_path Examples.output_path)
    = write Examples.two_entries Examples.output_path (Dumped report) /\
    getpath report ["entries"]%string = Ok (PList records) /\
    Forall2 extracts_to (filter kept entries) records.
Proof.
  apply (C2_records_are_the_interesting_entries_in_order
           Examples.two_entries Examples.input_path Examples.output_path).
  vm_compute; reflexivity.
Defined.

(** C6, as amended.  When the entries of the input document are the
    empty list, the run stops with the [ZeroDivisionError] of the ratio
    computation, before the output file is opened: the file system is
    left as it was. *)
Theorem C6_empty_input_stops_before_writing
    (fs : filesystem) (input_path output_path : pystr) (har_data : pyval) :
  input_document fs input_path = Ok har_data ->
  getpath har_data ["log"; "entries"]%string = Ok (PList []) ->
  clean_har_file fs input_path output_path = (Raise ZeroDivisionError, fs).
Proof.
  unfold clean_har_file, cleaned_har, input_document. intros Hd He.
  destruct (open_read fs input_path) as [f|]; [|discriminate]. cbn [bind] in *.
  rewrite Hd. cbn [bind]. rewrite He. cbn [bind iter clean_loop].
  unfold build_report, original_count. rewrite He. reflexivity.
Qed.

Lemma C6_witness :
  clean_har_file Examples.no_entries Examples.input_path Examples.output_path
  = (Raise ZeroDivisionError, Examples.no_entries).
Proof.
  apply (C6_empty_input_stops_before_writing
           Examples.no_entries Examples.input_path Examples.output_path
           (Examples.document_of []));
    vm_compute; reflexivity.
Defined.

(** C6 as stated fails: on a document with no entries the error
    is the interpreter's [ZeroDivisionError], not an error of the
    program's own. *)
Lemma C6_counterexample :
  fst (clean_har_file Examples.no_entries Examples.input_path Examples.output_path)
  = Raise ZeroDivisionError /\
  raised_by_interpreter ZeroDivisionError = true.
Proof. split; vm_compute; reflexivity. Qed.

(* ================================================================== *)
(** * The reduction ratio *)

Import Float64.
Local Open Scope Z_scope.

(** ** Rounding *)

Section Rounding.

Lemma rne_div_cases (n d : Z) :
  rne_div n d = n / d \/ (rne_div n d = n / d + 1 /\ d <= 2 * (n mod d)).
Proof.
  unfold rne_div. cbv zeta.
  destruct (Z.compare_spec (2 * (n mod d)) d) as [C|C|C].
  - destruct (Z.even (n / d)); [left | right]; lia.
  - now left.
  - right. lia.
Qed.

Lemma rne_div_halfway (n d : Z) :
  0 < d -> - d <= 2 * (rne_div n d * d - n) <= d.
Proof.
  intros Hd. unfold rne_div.
  pose proof (Z.div_mod n d ltac:(lia)) as Hdm.
  pose proof (Z.mod_pos_bound n d Hd) as Hr.
  set (q := n / d) in *. set (r := n mod d) in *. cbv zeta.
  destruct (Z.compare_spec (2 * r) d) as [C|C|C].
  - destruct (Z.even q); nia.
  - nia.
  - nia.
Qed.

Lemma rne_div_nonneg (n d : Z) : 0 <= n -> 0 < d -> 0 <= rne_div n d.
Proof.
  intros Hn Hd. pose proof (Z.div_pos n d Hn Hd).
  destruct (rne_div_cases n d) as [-> | [-> _]]; lia.
Qed.

Lemma rne_div_le (n d bound : Z) :
  0 < d -> n <= bound * d -> rne_div n d <= bound.
Proof.
  intros Hd Hn.
  pose proof (Z.div_mod n d ltac:(lia)) as Hdm.
  pose proof (Z.mod_pos_bound n d Hd) as Hr.
  destruct (rne_div_cases n d) as [-> | [-> Hhalf]]; nia.
Qed.

Lemma at_least_pow2_mono (p q e1 e2 : Z) :
  0 < p -> 0 < q -> e1 <= e2 -> at_least_pow2 p q e2 -> at_least_pow2 p q e1.
Proof.
  unfold at_least_pow2, scale. intros Hp Hq He.
  destruct (0 <=? e2) eqn:E2, (0 <=? e1) eqn:E1; simpl;
    try apply Z.leb_le in E1; try apply Z.leb_le in E2;
    try apply Z.leb_gt in E1; try apply Z.leb_gt in E2; intros H.
  - pose proof (Z.pow_le_mono_r 2 e1 e2 ltac:(lia) He).
    pose proof (Z.pow_pos_nonneg 2 e1 ltac:(lia) E1). nia.
  - pose proof (Z.pow_pos_nonneg 2 e2 ltac:(lia) E2).
    pose proof (Z.pow_pos_nonneg 2 (- e1) ltac:(lia) ltac:(lia)). nia.
  - lia.
  - pose proof (Z.pow_le_mono_r 2 (- e2) (- e1) ltac:(lia) ltac:(lia)).
    pose proof (Z.pow_pos_nonneg 2 (- e2) ltac:(lia) ltac:(lia)). nia.
Qed.

Lemma at_least_pow2_log2 (p q : Z) :
  0 < p -> 0 < q -> at_least_pow2 p q (Z.log2 p - Z.log2 q - 1).
Proof.
  intros Hp Hq. unfold at_least_pow2, scale.
  pose proof (Z.log2_spec p Hp) as [Hp1 _].
  pose proof (Z.log2_spec q Hq) as [_ Hq2].
  pose proof (Z.log2_nonneg p). pose proof (Z.log2_nonneg q).
  set (lp := Z.log2 p) in *. set (lq := Z.log2 q) in *.
  destruct (0 <=? lp - lq - 1) eqn:E; simpl.
  - apply Z.leb_le in E.
    assert (2 ^ lp = 2 ^ Z.succ lq * 2 ^ (lp - lq - 1)) as Hpow
      by (rewrite <- Z.pow_add_r by lia; f_equal; lia).
    pose proof (Z.pow_pos_nonneg 2 (lp - lq - 1) ltac:(lia) E). nia.
  - apply Z.leb_gt in E.
    assert (2 ^ Z.succ lq = 2 ^ lp * 2 ^ (- (lp - lq - 1))) as Hpow
      by (rewrite <- Z.pow_add_r by lia; f_equal; lia).
    pose proof (Z.pow_pos_nonneg 2 (- (lp - lq - 1)) ltac:(lia) ltac:(lia)). nia.
Qed.

(** [ilog2] stays below every power of two that bounds the fraction. *)
Lemma ilog2_lt (p q : positive) (E : Z) :
  ~ at_least_pow2 (Zpos p) (Zpos q) E -> ilog2 p q < E.
Proof.
  intros HE. unfold ilog2.
  set (e0 := Z.log2 (Zpos p) - Z.log2 (Zpos q)).
  destruct (scale (Zpos p) (Zpos q) e0) as [n d] eqn:Es.
  destruct (d <=? n) eqn:T.
  - apply Z.leb_le in T.
    destruct (Z.lt_ge_cases e0 E) as [|Hge]; trivial.
    exfalso. apply HE.
    apply (@at_least_pow2_mono _ _ E e0); try lia.
    unfold at_least_pow2. now rewrite Es.
  - destruct (Z.lt_ge_cases (e0 - 1) E) as [|Hge]; trivial.
    exfalso. apply HE.
    apply (@at_least_pow2_mono _ _ E (e0 - 1)); try lia.
    apply at_least_pow2_log2; lia.
Qed.

(** Rounding a fraction that is at most [b * 2^eb], a binary64 number
    below one ulp of [2^0]: the result is a multiple [m * 2^e] of a power
    of two no coarser than [2^eb], it is at most the bound, and it is
    within half of [2^e] of the fraction. *)
Lemma round_below (p q : positive) (b eb : Z) :
  exp_min <= eb < 0 -> 0 < b < 2 ^ 53 ->
  Zpos p * 2 ^ (- eb) <= b * Zpos q ->
  exists m e,
    round false p q = dyadic m e /\
    exp_min <= e <= eb /\
    0 <= m <= b * 2 ^ (eb - e) /\
    - Zpos q <= 2 * (m * Zpos q - Zpos p * 2 ^ (- e)) <= Zpos q.
Proof.
  intros Heb Hb Hle. unfold round.
  assert (ilog2 p q < eb + 53) as Hlog.
  { apply ilog2_lt. unfold at_least_pow2, scale.
    pose proof (Z.pow_pos_nonneg 2 (- eb) ltac:(lia) ltac:(lia)) as Hpe.
    assert (b * Zpos q < 2 ^ 53 * Zpos q) as Hbq by nia.
    destruct (0 <=? eb + 53) eqn:E; cbn [fst snd]; intros H.
    - apply Z.leb_le in E.
      assert (2 ^ 53 = 2 ^ (eb + 53) * 2 ^ (- eb)) as Hpow
        by (rewrite <- Z.pow_add_r by lia; f_equal; lia).
      apply (Z.mul_le_mono_nonneg_r _ _ (2 ^ (- eb))) in H; [|lia].
      replace (Zpos q * 2 ^ (eb + 53) * 2 ^ (- eb)) with (2 ^ 53 * Zpos q) in H
        by (rewrite Hpow; ring).
      lia.
    - apply Z.leb_gt in E.
      assert (2 ^ (- eb) = 2 ^ (- (eb + 53)) * 2 ^ 53) as Hpow
        by (rewrite <- Z.pow_add_r by lia; f_equal; lia).
      apply (Z.mul_le_mono_nonneg_l _ _ (2 ^ 53)) in H; [|lia].
      replace (2 ^ 53 * (Zpos p * 2 ^ (- (eb + 53)))) with (Zpos p * 2 ^ (- eb)) in H
        by (rewrite Hpow; ring).
      lia. }
  set (e := Z.max (ilog2 p q - 52) exp_min).
  assert (exp_min <= e <= eb) as He by (unfold e; lia).
  unfold scale. destruct (0 <=? e) eqn:E0; [apply Z.leb_le in E0; lia|].
  set (n := Zpos p * 2 ^ (- e)).
  pose proof (Z.pow_pos_nonneg 2 (- e) ltac:(lia) ltac:(lia)) as Hpe.
  pose proof (Z.pow_pos_nonneg 2 (eb - e) ltac:(lia) ltac:(lia)) as Hpd.
  assert (2 ^ (- e) = 2 ^ (- eb) * 2 ^ (eb - e)) as Hsplit
    by (rewrite <- Z.pow_add_r by lia; f_equal; lia).
  assert (0 <= n) as Hn by (unfold n; nia).
  assert (n <= b * 2 ^ (eb - e) * Zpos q) as Hnb by (unfold n; nia).
  pose proof (rne_div_nonneg n (Zpos q) Hn ltac:(lia)) as Hm0.
  pose proof (@rne_div_le n (Zpos q) _ ltac:(lia) Hnb) as Hmb.
  pose proof (@rne_div_halfway n (Zpos q) ltac:(lia)) as Hhalf.
  set (m := rne_div n (Zpos q)) in *.
  destruct (m =? 2 ^ 53) eqn:Em.
  - apply Z.eqb_eq in Em.
    assert (e + 1 <= eb) as He1.
    { destruct (Z.eq_dec e eb) as [->|]; [|lia].
      rewrite Z.sub_diag in Hmb. simpl in Hmb. lia. }
    assert (2 ^ (eb - e) = 2 * 2 ^ (eb - (e + 1))) as Hd2
      by (rewrite <- Z.pow_succ_r by lia; f_equal; lia).
    assert (2 ^ (- e) = 2 * 2 ^ (- (e + 1))) as He2
      by (rewrite <- Z.pow_succ_r by lia; f_equal; lia).
    exists (2 ^ 52), (e + 1).
    change (2 ^ 52) with 4503599627370496 in *.
    change (2 ^ 53) with 9007199254740992 in *.
    cbn [dyadic]. unfold exp_max.
    destruct (e + 1 <=? 971) eqn:Ex; [|apply Z.leb_gt in Ex; unfold exp_min in *; lia].
    split; [reflexivity|]. unfold n in *. repeat split; try lia; nia.
  - exists m, e. unfold exp_max.
    destruct m as [|k|k]; cbn [dyadic]; try lia.
    + repeat split; try lia.
    + destruct (e <=? 971) eqn:Ex; [|apply Z.leb_gt in Ex; lia].
      repeat split; try lia.
Qed.

End Rounding.

Ltac zcalc :=
  change (- -52) with 52 in *; change (- -46) with 46 in *; lia.

Lemma pow2_pos (e : Z) : e < 0 -> 2 ^ (- e) = Zpos (Z.to_pos (2 ^ (- e))).
Proof.
  intros He. pose proof (Z.pow_pos_nonneg 2 (- e) ltac:(lia) ltac:(lia)).
  now rewrite Z2Pos.id.
Qed.

(** The exact value of [dyadic m e] is [m / 2^(-e)]. *)
Lemma ratio_dyadic (m e : Z) :
  0 <= m -> e < 0 ->
  fst (ratio (dyadic m e)) * 2 ^ (- e) = m * Zpos (snd (ratio (dyadic m e))) /\
  0 <= fst (ratio (dyadic m e)).
Proof.
  intros Hm He. destruct m as [|k|k]; try lia; cbn [dyadic ratio fst snd].
  - split; lia.
  - destruct e as [|pe|ne]; try lia. cbn [fst snd].
    rewrite Pos2Z.inj_pow. change (- Zneg ne) with (Zpos ne). split; lia.
Qed.

Lemma ratio_dyadic_pos (k : positive) (e : Z) :
  e < 0 -> ratio (S754_finite false k e) = (Zpos k, Z.to_pos (2 ^ (- e))).
Proof.
  intros He. destruct e as [|pe|ne]; try lia. cbn [ratio].
  f_equal. change (- Zneg ne) with (Zpos ne).
  rewrite <- Pos2Z.inj_pow. reflexivity.
Qed.

Lemma of_int_1 : of_int 1 = one.
Proof. vm_compute. reflexivity. Qed.

Lemma of_int_100 : of_int 100 = hundred.
Proof. vm_compute. reflexivity. Qed.

(** [k / n] for [0 < k <= n]. *)
Lemma int_truediv_unit (k n : Z) :
  0 < k <= n ->
  exists m e,
    int_truediv k n = Ok (dyadic m e) /\
    exp_min <= e <= -52 /\
    0 <= m <= 2 ^ (- e) /\
    - n <= 2 * (m * n - k * 2 ^ (- e)) <= n.
Proof.
  intros Hk. unfold int_truediv.
  destruct (n =? 0) eqn:En; [apply Z.eqb_eq in En; lia|].
  destruct (k =? 0) eqn:Ek; [apply Z.eqb_eq in Ek; lia|].
  replace (Z.sgn k * Z.sgn n <? 0) with false
    by (symmetry; apply Z.ltb_ge; rewrite !Z.sgn_pos by lia; lia).
  destruct (@round_below (Z.to_pos (Z.abs k)) (Z.to_pos (Z.abs n)) (2 ^ 52) (-52))
    as (m & e & Hr & He & Hm & Hacc).
  - unfold exp_min. lia.
  - lia.
  - rewrite !Z2Pos.id by lia. rewrite !Z.abs_eq by lia. zcalc.
  - rewrite !Z2Pos.id, !Z.abs_eq in Hacc by lia.
    exists m, e. rewrite Hr.
    assert (2 ^ 52 * 2 ^ (-52 - e) = 2 ^ (- e)) as Hp
      by (rewrite <- Z.pow_add_r by lia; f_equal; lia).
    rewrite Hp in Hm.
    destruct m; cbn [dyadic]; repeat split; lia.
Qed.

(** [1 - x] for a binary64 number [x = m / 2^(-e)] of the unit
    interval. *)
Lemma sub_one_unit (m e : Z) :
  exp_min <= e <= -52 -> 0 <= m <= 2 ^ (- e) ->
  exists m' e',
    sub one (dyadic m e) = dyadic m' e' /\
    exp_min <= e' <= -52 /\
    0 <= m' <= 2 ^ (- e') /\
    - 2 ^ (- e) <= 2 * (m' * 2 ^ (- e) - (2 ^ (- e) - m) * 2 ^ (- e')) <= 2 ^ (- e).
Proof.
  intros He Hm.
  pose proof (Z.pow_pos_nonneg 2 (- e) ltac:(lia) ltac:(lia)) as Hd.
  destruct m as [|k|k]; try lia.
  - exists (2 ^ 52), (-52). cbn [dyadic]. unfold exp_min.
    repeat split; try reflexivity; zcalc.
  - cbn [dyadic]. unfold sub, one.
    rewrite (@ratio_dyadic_pos k e) by lia.
    rewrite (@ratio_dyadic_pos 4503599627370496 (-52)) by lia.
    set (D := Z.to_pos (2 ^ (- e))).
    assert (Zpos D = 2 ^ (- e)) as HD by (unfold D; rewrite Z2Pos.id; lia).
    change (Z.to_pos (2 ^ (- -52))) with 4503599627370496%positive.
    set (num := 4503599627370496 * Zpos D - Zpos k * 4503599627370496).
    assert (0 <= num) as Hnum by (unfold num; lia).
    unfold of_ratio.
    destruct num as [|pn|pn] eqn:En; try lia.
    + exists 0, (-52). cbn [dyadic]. unfold exp_min.
      repeat split; zcalc.
    + destruct (@round_below pn (4503599627370496 * D) (2 ^ 52) (-52))
        as (m' & e' & Hr & He' & Hm' & Hacc).
      * unfold exp_min. lia.
      * lia.
      * rewrite Pos2Z.inj_mul. zcalc.
      * exists m', e'. rewrite Hr.
        assert (2 ^ 52 * 2 ^ (-52 - e') = 2 ^ (- e')) as Hp
          by (rewrite <- Z.pow_add_r by lia; f_equal; lia).
        rewrite Hp in Hm'. rewrite Pos2Z.inj_mul in Hacc.
        pose proof (Z.pow_pos_nonneg 2 (- e') ltac:(lia) ltac:(lia)) as Hd'.
        rewrite <- HD.
        assert (Zpos pn = 4503599627370496 * (Zpos D - Zpos k)) as Hpn by lia.
        rewrite Hpn in Hacc.
        repeat split; try lia; nia.
Qed.

(** [y * 100] for a binary64 number [y = m / 2^(-e)] of the unit
    interval. *)
Lemma mul_hundred_unit (m e : Z) :
  exp_min <= e <= -52 -> 0 <= m <= 2 ^ (- e) ->
  exists m' e',
    mul (dyadic m e) hundred = dyadic m' e' /\
    exp_min <= e' <= -46 /\
    0 <= m' <= 100 * 2 ^ (- e') /\
    - 2 ^ (- e) <= 2 * (m' * 2 ^ (- e) - 100 * m * 2 ^ (- e')) <= 2 ^ (- e).
Proof.
  intros He Hm.
  pose proof (Z.pow_pos_nonneg 2 (- e) ltac:(lia) ltac:(lia)) as Hd.
  destruct m as [|k|k]; try lia.
  - exists 0, (-46). cbn [dyadic]. unfold exp_min.
    repeat split; try reflexivity; zcalc.
  - cbn [dyadic]. unfold mul, hundred.
    rewrite (@ratio_dyadic_pos k e) by lia.
    rewrite (@ratio_dyadic_pos 7036874417766400 (-46)) by lia.
    set (D := Z.to_pos (2 ^ (- e))).
    assert (Zpos D = 2 ^ (- e)) as HD by (unfold D; rewrite Z2Pos.id; lia).
    change (Z.to_pos (2 ^ (- -46))) with 70368744177664%positive.
    replace (Zpos k * 7036874417766400) with (Zpos (k * 7036874417766400)) by reflexivity.
    cbn [of_ratio].
    destruct (@round_below (k * 7036874417766400) (D * 70368744177664)
                7036874417766400 (-46))
      as (m' & e' & Hr & He' & Hm' & Hacc).
    + unfold exp_min. lia.
    + lia.
    + rewrite !Pos2Z.inj_mul. zcalc.
    + exists m', e'. rewrite Hr.
      assert (7036874417766400 * 2 ^ (-46 - e') = 100 * 2 ^ (- e')) as Hp.
      { change 7036874417766400 with (100 * 2 ^ 46).
        rewrite <- Z.mul_assoc, <- Z.pow_add_r by lia. do 2 f_equal. lia. }
      rewrite Hp in Hm'. rewrite !Pos2Z.inj_mul in Hacc.
      pose proof (Z.pow_pos_nonneg 2 (- e') ltac:(lia) ltac:(lia)) as Hd'.
      rewrite <- HD.
      replace (m' * (Zpos D * 70368744177664))
        with (70368744177664 * (m' * Zpos D)) in Hacc by ring.
      replace (Zpos k * 7036874417766400 * 2 ^ (- e'))
        with (70368744177664 * (100 * Zpos k * 2 ^ (- e'))) in Hacc by ring.
      repeat split; lia.
Qed.

Lemma frac_le (a b c d : Z) :
  0 < b -> 0 < d -> a * d <= c * b -> (frac a b <= frac c d)%Q.
Proof.
  intros Hb Hd H. unfold frac, Qle. cbn [Qnum Qden]. now rewrite !Z2Pos.id.
Qed.

(** A fraction [m / D] within [1 / (2 D)] of [p / q], for [D >= 2^j]. *)
Lemma frac_close (m D p q : Z) (j : positive) :
  0 < q -> Zpos (2 ^ j) <= D ->
  - q <= 2 * (m * q - p * D) <= q ->
  (- (1 # 2 ^ (j + 1)) <= frac m D - frac p q <= 1 # 2 ^ (j + 1))%Q.
Proof.
  intros Hq HD H.
  assert (0 < D) as HD0 by lia.
  unfold frac, Qle, Qminus, Qplus, Qopp. cbn [Qnum Qden].
  rewrite !Pos2Z.inj_mul, !Z2Pos.id by lia.
  rewrite Pos.add_1_r, Pos.pow_succ_r, !Pos2Z.inj_mul.
  set (P := Zpos (2 ^ j)) in *. assert (0 < P) by (unfold P; lia).
  split; nia.
Qed.

Lemma frac_one_minus (m D : Z) : 0 < D -> (frac (D - m) D == 1 - frac m D)%Q.
Proof.
  intros HD. unfold frac, Qeq, Qminus, Qplus, Qopp. cbn [Qnum Qden].
  rewrite ?Pos2Z.inj_mul, !Z2Pos.id by lia. ring.
Qed.

Lemma frac_hundred (m D : Z) : 0 < D -> (frac (100 * m) D == 100 * frac m D)%Q.
Proof.
  intros HD. unfold frac, Qeq, Qmult. cbn [Qnum Qden].
  rewrite ?Pos2Z.inj_mul, !Z2Pos.id by lia. ring.
Qed.

Lemma value_dyadic (m e : Z) :
  0 <= m -> e < 0 -> (value (dyadic m e) == frac m (2 ^ (- e)))%Q.
Proof.
  intros Hm He. destruct (@ratio_dyadic m e Hm He) as [H _].
  pose proof (Z.pow_pos_nonneg 2 (- e) ltac:(lia) ltac:(lia)).
  unfold value, frac, Qeq. cbn [Qnum Qden]. rewrite Z2Pos.id by lia. exact H.
Qed.

Lemma nonneg_finite_dyadic (m e : Z) : nonneg_finite (dyadic m e) = true.
Proof. now destruct m. Qed.

(** The value of line 114 on counts [0 <= k <= n], [0 < n]: no exception,
    a number of [0, 100], within [2^-44] of [100 (1 - k / n)]. *)
Lemma reduction_value_bounds (k n : Z) :
  0 <= k <= n -> 0 < n ->
  exists v,
    reduction_value k n = Ok v /\
    nonneg_finite v = true /\
    (0 <= value v <= 100)%Q /\
    (Qabs (value v - 100 * (1 - frac k n)) <= 1 # 2 ^ 44)%Q.
Proof.
  intros Hk Hn. unfold reduction_value. rewrite of_int_1, of_int_100.
  destruct (Z.eq_dec k 0) as [->|Hk0].
  - exists hundred. unfold int_truediv.
    destruct (n =? 0) eqn:En; [apply Z.eqb_eq in En; lia|].
    replace (n <? 0) with false by (symmetry; apply Z.ltb_ge; lia).
    split; [vm_compute; reflexivity|]. split; [reflexivity|].
    split; [split; vm_compute; discriminate|].
    assert (value hundred == 100)%Q as -> by reflexivity.
    assert (frac 0 n == 0)%Q as -> by reflexivity.
    vm_compute. discriminate.
  - destruct (@int_truediv_unit k n ltac:(lia)) as (m & e & Hq & He & Hm & A1).
    destruct (@sub_one_unit m e He Hm) as (m2 & e2 & Hs & He2 & Hm2 & A2).
    destruct (@mul_hundred_unit m2 e2 He2 Hm2) as (m3 & e3 & Hp & He3 & Hm3 & A3).
    exists (dyadic m3 e3). rewrite Hq. cbn [bind]. rewrite Hs, Hp.
    split; [reflexivity|]. split; [apply nonneg_finite_dyadic|].
    rewrite value_dyadic by lia.
    assert (Zpos (2 ^ 52) <= 2 ^ (- e)) as HD
      by (apply (Z.pow_le_mono_r 2 52 (- e)); lia).
    assert (Zpos (2 ^ 52) <= 2 ^ (- e2)) as HD2
      by (apply (Z.pow_le_mono_r 2 52 (- e2)); lia).
    assert (Zpos (2 ^ 46) <= 2 ^ (- e3)) as HD3
      by (apply (Z.pow_le_mono_r 2 46 (- e3)); lia).
    set (D := 2 ^ (- e)) in *. set (D2 := 2 ^ (- e2)) in *. set (D3 := 2 ^ (- e3)) in *.
    pose proof (@frac_close m D k n 52 Hn HD A1) as Q1.
    pose proof (@frac_close m2 D2 (D - m) D 52 ltac:(lia) HD2 A2) as Q2.
    rewrite frac_one_minus in Q2 by lia.
    assert (- D2 <= 2 * (m3 * D2 - 100 * m2 * D3) <= D2) as A3' by lia.
    pose proof (@frac_close m3 D3 (100 * m2) D2 46 ltac:(lia) HD3 A3') as Q3.
    rewrite frac_hundred in Q3 by lia.
    assert (0 <= frac m3 D3)%Q as Z0 by (apply (@frac_le 0 1 m3 D3); lia).
    assert (frac m3 D3 <= 100)%Q as Z100
      by (apply (@frac_le m3 D3 100 1); lia).
    split; [split; assumption|].
    apply Qabs_Qle_condition.
    change (1 # 2 ^ (52 + 1))%Q with (1 # 9007199254740992)%Q in *.
    change (1 # 2 ^ (46 + 1))%Q with (1 # 140737488355328)%Q in *.
    change (1 # 2 ^ 44)%Q with (1 # 17592186044416)%Q.
    split; lra.
Qed.



Lemma reduction_ratio_value (k n : Z) (ratio : pystr) :
  reduction_ratio k n = Ok ratio ->
  exists v, reduction_value k n = Ok v /\ ratio = (format_1f v ++ py "%")%list.
Proof.
  unfold reduction_ratio. destruct (reduction_value k n) as [v|]; [|discriminate].
  cbn [bind]. intros H. injection H as <-. eauto.
Qed.

Lemma reduction_ratio_nonzero (k n : Z) (ratio : pystr) :
  reduction_ratio k n = Ok ratio -> n <> 0.
Proof.
  intros H ->. unfold reduction_ratio, reduction_value, int_truediv in H.
  discriminate H.
Qed.

Lemma Forall2_length_eq (A B : Type) (R : A -> B -> Prop) (l : list A) (l' : list B) :
  Forall2 R l l' -> List.length l = List.length l'.
Proof. induction 1; simpl; congruence. Qed.

Lemma kept_count (entries records : list pyval) :
  Forall2 extracts_to (filter kept entries) records ->
  (List.length records <= List.length entries)%nat.
Proof.
  intros H. rewrite <- (@Forall2_length_eq _ _ _ _ _ H). apply filter_length_le.
Qed.



(** C9.  In a run that writes its report, [total_entries] is the length
    of the entries of the report and is at most [original_entries], the
    number of entries of the input, which is positive; the value of the
    reduction ratio is a number of [0, 100]. *)
Theorem C9_total_at_most_original_ratio_in_range
    (fs : filesystem) (input_path output_path : pystr) :
  fst (clean_har_file fs input_path output_path) = Ok tt ->
  exists report records (total original : Z) v,
    snd (clean_har_file fs input_path output_path)
    = write fs output_path (Dumped report) /\
    getpath report ["entries"]%string = Ok (PList records) /\
    summary_field report "total_entries" = Ok (PInt total) /\
    summary_field report "original_entries" = Ok (PInt original) /\
    total = Z.of_nat (List.length records) /\
    total <= original /\ 0 < original /\
    reduction_value total original = Ok v /\
    (0 <= value v <= 100)%Q /\
    summary_field report "reduction_ratio" = Ok (PStr (format_1f v ++ py "%")).
Proof.
  unfold clean_har_file.
  destruct (cleaned_har fs input_path) as [report|] eqn:Hc; [|discriminate].
  intros _. cbn [snd].
  destruct (@cleaned_har_inv _ _ _ Hc)
    as (har_data & entries & records & ratio & _ & _ & Hall & Hr & He & Ht & Ho & Hs).
  pose proof (@kept_count _ _ Hall) as Hle.
  pose proof (@reduction_ratio_nonzero _ _ _ Hr) as Hnz.
  destruct (@reduction_ratio_value _ _ _ Hr) as (v & Hv & ->).
  destruct (@reduction_value_bounds (Z.of_nat (List.length records))
              (Z.of_nat (List.length entries)) ltac:(lia) ltac:(lia))
    as (v' & Hv' & _ & Hrange & _).
  rewrite Hv in Hv'. injection Hv' as <-.
  exists report, records, (Z.of_nat (List.length records)),
    (Z.of_nat (List.length entries)), v.
  repeat split; trivial; try lia; apply Hrange.
Qed.

Lemma C9_witness :
  exists report records (total original : Z) v,
    snd (clean_har_file Examples.two_entries Examples.input_path Examples.output_path)
    = write Examples.two_entries Examples.output_path (Dumped report) /\
    getpath report ["entries"]%string = Ok (PList records) /\
    summary_field report "total_entries" = Ok (PInt total) /\
    summary_field report "original_entries" = Ok (PInt original) /\
    total = Z.of_nat (List.length records) /\
    total <= original /\ 0 < original /\
    reduction_value total original = Ok v /\
    (0 <= value v <= 100)%Q /\
    summary_field report "reduction_ratio" = Ok (PStr (format_1f v ++ py "%")).
Proof.
  apply (C9_total_at_most_original_ratio_in_range
           Examples.two_entries Examples.input_path Examples.output_path).
  vm_compute; reflexivity.
Defined.

(** ** The models of the library functions, on examples *)

(** The end-to-end example of the specification: two entries, the first
    one kept with its request body decoded, a reduction of 50.0%. *)
Example two_entries_report :
  exists report,
    clean_har_file Examples.two_entries Examples.input_path Examples.output_path
    = (Ok tt, write Examples.two_entries Examples.output_path (Dumped report)) /\
    getpath report ["entries"]%string
    = Ok (PList
            [ PDict [ (py "url", PStr (py Examples.chat_url));
                      (py "method", PStr (py "POST"));
                      (py "status", PInt 200);
                      (py "startedDateTime", PStr (py "t1"));
                      (py "requestBody", PDict [ (py "x", PInt 1) ]) ] ]) /\
    summary_field report "total_entries" = Ok (PInt 1) /\
    summary_field report "original_entries" = Ok (PInt 2) /\
    summary_field report "reduction_ratio" = Ok (PStr (py "50.0%")).
Proof. eexists. vm_compute. repeat split. Qed.

(** [round] against the Standard Library's binary64 operations. *)
Example int_truediv_is_SFdiv :
  int_truediv 1 3 = Ok (SFdiv prec emax (of_int 1) (of_int 3)) /\
  int_truediv 351 400 = Ok (SFdiv prec emax (of_int 351) (of_int 400)) /\
  int_truediv 7 10 = Ok (SFdiv prec emax (of_int 7) (of_int 10)).
Proof. vm_compute. repeat split. Qed.

Example sub_mul_are_SFsub_SFmul :
  sub one (SFdiv prec emax (of_int 351) (of_int 400))
  = SFsub prec emax one (SFdiv prec emax (of_int 351) (of_int 400)) /\
  mul (SFsub prec emax one (SFdiv prec emax (of_int 351) (of_int 400))) hundred
  = SFmul prec emax (SFsub prec emax one (SFdiv prec emax (of_int 351) (of_int 400)))
      hundred.
Proof. vm_compute. repeat split. Qed.

(** Two ties of the exact ratio: [100 (1 - 351 / 400) = 12.25] is
    computed a little above and printed as ["12.3%"], and
    [100 (1 - 349 / 400) = 12.75] a little below and printed as
    ["12.7%"]; then ratios of more digits. *)
Example reduction_ratio_examples :
  reduction_ratio 351 400 = Ok (py "12.3%") /\
  reduction_ratio 349 400 = Ok (py "12.7%") /\
  reduction_ratio 3 17 = Ok (py "82.4%") /\
  reduction_ratio 1 3 = Ok (py "66.7%") /\
  reduction_ratio 0 0 = Raise ZeroDivisionError.
Proof. vm_compute. repeat split. Qed.

Example decode_examples :
  Json.decode (js "{'a': [1, 2.5, true, null, 'x\n']}")
  = Some (PDict [ (py "a",
                   PList [ PInt 1; PFloat (S754_finite false 5629499534213120 (-51));
                           PBool true; PNone; PStr [120%N; 10%N] ]) ]) /\
  Json.decode (js "{'a': 1, 'b': 2, 'a': 3}")
  = Some (PDict [ (py "a", PInt 3); (py "b", PInt 2) ]) /\
  Json.decode (py "[1,]") = None /\
  Json.decode (py "{'a': 1}") = None /\
  Json.decode [] = None /\
  Json.decode (py "01") = None /\
  Json.decode (py "-Infinity") = Some (PFloat (S754_infinity true)) /\
  Json.loads PNone = Raise TypeError.
Proof. vm_compute. repeat split. Qed.

(* ================================================================== *)
(** * Further properties of the three functions *)

Import More.
Local Close Scope Z_scope.

(** ** What each step does to the record, on any entry *)

Ltac break_steps H :=
  repeat (cbn [bind] in H;
          match type of H with
          | context [bind ?x _] => destruct x eqn:?
          | context [match ?x with _ => _ end] => destruct x eqn:?
          end);
  cbn [bind] in H; try discriminate H.

Lemma request_body_sets (e : pyval) (c c' : dict) :
  request_body e c = Ok c' ->
  c' = c \/ exists v, c' = dict_set c (py "requestBody") v.
Proof.
  unfold request_body. intros H. break_steps H;
    injection H as <-; eauto.
Qed.

Lemma response_body_sets (e : pyval) (c c' : dict) :
  response_body e c = Ok c' ->
  c' = c \/ exists v, c' = dict_set c (py "responseBody") v.
Proof.
  unfold response_body. intros H. break_steps H;
    injection H as <-; eauto.
Qed.

Lemma websocket_messages_sets (e : pyval) (c c' : dict) :
  websocket_messages e c = Ok c' ->
  c' = c \/ exists v, c' = dict_set c (py "webSocketMessages") v.
Proof.
  unfold websocket_messages. intros H. break_steps H;
    injection H as <-; eauto.
Qed.

(** Whenever the extractor returns, the result is a dict that starts
    with the four required values of the entry and goes on with the
    optional fields that were set. *)
Lemma extract_shape (e r : pyval) :
  extract_interesting_content e = Ok r ->
  exists d url method status started request response messages,
    r = PDict d /\
    getpath e ["request"; "url"]%string = Ok url /\
    getpath e ["request"; "method"]%string = Ok method /\
    getpath e ["response"; "status"]%string = Ok status /\
    getpath e ["startedDateTime"]%string = Ok started /\
    dict_get (py "url") d = Some url /\
    dict_get (py "method") d = Some method /\
    dict_get (py "status") d = Some status /\
    dict_get (py "startedDateTime") d = Some started /\
    map fst d = (required_keys ++ optional_keys request response messages)%list.
Proof.
  unfold extract_interesting_content. intros H.
  destruct (getpath e ["request"; "url"]%string) as [url|]; [|discriminate].
  destruct (getpath e ["request"; "method"]%string) as [method|]; [|discriminate].
  destruct (getpath e ["response"; "status"]%string) as [status|]; [|discriminate].
  destruct (getpath e ["startedDateTime"]%string) as [started|]; [|discriminate].
  cbn [bind] in H.
  destruct (request_body e _) as [c1|] eqn:E1; [|discriminate]. cbn [bind] in H.
  destruct (response_body e c1) as [c2|] eqn:E2; [|discriminate]. cbn [bind] in H.
  destruct (websocket_messages e c2) as [c3|] eqn:E3; [|discriminate]. cbn [bind] in H.
  injection H as <-.
  exists c3, url, method, status, started.
  apply request_body_sets in E1. apply response_body_sets in E2.
  apply websocket_messages_sets in E3.
  destruct E1 as [->|[v1 ->]], E2 as [->|[v2 ->]], E3 as [->|[v3 ->]].
  - exists false, false, false. repeat split.
  - exists false, false, true. repeat split.
  - exists false, true, false. repeat split.
  - exists false, true, true. repeat split.
  - exists true, false, false. repeat split.
  - exists true, false, true. repeat split.
  - exists true, true, false. repeat split.
  - exists true, true, true. repeat split.
Qed.

(** X1.  Whenever the extractor returns a record, its [url], [method],
    [status] and [startedDateTime] are the values found in the entry
    under [request.url], [request.method], [response.status] and
    [startedDateTime], unchanged. *)
Theorem extract_copies_required_fields (e r : pyval) :
  extract_interesting_content e = Ok r ->
  getpath r ["url"]%string = getpath e ["request"; "url"]%string /\
  getpath r ["method"]%string = getpath e ["request"; "method"]%string /\
  getpath r ["status"]%string = getpath e ["response"; "status"]%string /\
  getpath r ["startedDateTime"]%string = getpath e ["startedDateTime"]%string.
Proof.
  intros H.
  destruct (extract_shape e r H)
    as (d & url & method & status & started & rq & rs & ws & -> & -> & -> & -> & ->
        & Hu & Hm & Hs & Ht & _).
  cbn [getpath getitem]. now rewrite Hu, Hm, Hs, Ht.
Qed.

Lemma extract_copies_required_fields_witness :
  getpath (PDict [ (py "url", PStr (py Examples.chat_url));
                   (py "method", PStr (py "POST"));
                   (py "status", PInt 200);
                   (py "startedDateTime", PStr (py "t1"));
                   (py "requestBody", PDict [ (py "x", PInt 1) ]) ]) ["url"]%string
  = getpath Examples.chat_entry ["request"; "url"]%string /\
  getpath (PDict [ (py "url", PStr (py Examples.chat_url));
                   (py "method", PStr (py "POST"));
                   (py "status", PInt 200);
                   (py "startedDateTime", PStr (py "t1"));
                   (py "requestBody", PDict [ (py "x", PInt 1) ]) ]) ["method"]%string
  = getpath Examples.chat_entry ["request"; "method"]%string /\
  getpath (PDict [ (py "url", PStr (py Examples.chat_url));
                   (py "method", PStr (py "POST"));
                   (py "status", PInt 200);
                   (py "startedDateTime", PStr (py "t1"));
                   (py "requestBody", PDict [ (py "x", PInt 1) ]) ]) ["status"]%string
  = getpath Examples.chat_entry ["response"; "status"]%string /\
  getpath (PDict [ (py "url", PStr (py Examples.chat_url));
                   (py "method", PStr (py "POST"));
                   (py "status", PInt 200);
                   (py "startedDateTime", PStr (py "t1"));
                   (py "requestBody", PDict [ (py "x", PInt 1) ]) ])
    ["startedDateTime"]%string
  = getpath Examples.chat_entry ["startedDateTime"]%string.
Proof.
  apply (extract_copies_required_fields Examples.chat_entry).
  vm_compute; reflexivity.
Defined.

(** X2.  Whenever the extractor returns, the result is a dict whose
    keys are [url], [method], [status], [startedDateTime] followed by
    those of [requestBody], [responseBody], [webSocketMessages] that
    were set, in this order: no other field of the entry (headers,
    cookies, timings) reaches the record. *)
Theorem extract_keys_are_the_seven (e r : pyval) :
  extract_interesting_content e = Ok r ->
  exists d request response messages,
    r = PDict d /\
    map fst d = (required_keys ++ optional_keys request response messages)%list.
Proof.
  intros H.
  destruct (extract_shape e r H)
    as (d & url & method & status & started & rq & rs & ws & -> & _ & _ & _ & _
        & _ & _ & _ & _ & Hk).
  exists d, rq, rs, ws. split; trivial.
Qed.

Lemma extract_keys_are_the_seven_witness :
  exists d request response messages,
    PDict [ (py "url", PStr (py Examples.chat_url));
            (py "method", PStr (py "POST"));
            (py "status", PInt 200);
            (py "startedDateTime", PStr (py "t1"));
            (py "requestBody", PDict [ (py "x", PInt 1) ]) ] = PDict d /\
    map fst d = (required_keys ++ optional_keys request response messages)%list.
Proof.
  apply (extract_keys_are_the_seven Examples.chat_entry).
  vm_compute; reflexivity.
Defined.

(** ** Entries that lack a field or hold a value of another type *)

Lemma getpath_raises (ks : list string) (v : pyval) (ex : pyexn) :
  getpath v ks = Raise ex -> ex = KeyError \/ ex = TypeError.
Proof.
  revert v. induction ks as [|k ks IH]; intros v H; cbn [getpath] in H.
  - discriminate.
  - destruct (getitem v (py k)) as [x|ex'] eqn:E.
    + eauto.
    + injection H as <-. destruct v; cbn [getitem] in E;
        try (injection E as <-; auto).
      destruct (dict_get (py k) d); [discriminate|]. injection E as <-. auto.
Qed.

(** X3.  On an entry that lacks one of [request.url], [request.method],
    [response.status], [startedDateTime], the extractor raises
    [KeyError] (a key is missing) or [TypeError] (a value on the path is
    not an object); it returns no partial record. *)
Theorem extract_needs_required_fields (e : pyval) :
  has_required_fields e = false ->
  exists ex,
    extract_interesting_content e = Raise ex /\ (ex = KeyError \/ ex = TypeError).
Proof.
  unfold has_required_fields, extract_interesting_content. intros H.
  destruct (getpath e ["request"; "url"]%string) as [url|ex] eqn:E1;
    [|exists ex; split; [reflexivity | exact (getpath_raises _ _ _ E1)]].
  destruct (getpath e ["request"; "method"]%string) as [method|ex] eqn:E2;
    [|exists ex; split; [reflexivity | exact (getpath_raises _ _ _ E2)]].
  destruct (getpath e ["response"; "status"]%string) as [status|ex] eqn:E3;
    [|exists ex; split; [reflexivity | exact (getpath_raises _ _ _ E3)]].
  destruct (getpath e ["startedDateTime"]%string) as [started|ex] eqn:E4;
    [|exists ex; split; [reflexivity | exact (getpath_raises _ _ _ E4)]].
  discriminate.
Qed.

Lemma extract_needs_required_fields_witness :
  exists ex,
    extract_interesting_content no_response_entry = Raise ex /\
    (ex = KeyError \/ ex = TypeError).
Proof.
  apply (extract_needs_required_fields no_response_entry).
  vm_compute; reflexivity.
Defined.

Lemma getpath_snoc (ks : list string) (k : string) (v : pyval) :
  getpath v (ks ++ [k]) = (x <- getpath v ks ;; getitem x (py k)).
Proof.
  revert v. induction ks as [|k0 ks IH]; intros v; cbn [getpath app bind].
  - now destruct (getitem v (py k)).
  - destruct (getitem v (py k0)); [apply IH | reflexivity].
Qed.

Lemma getitem_contains (v x : pyval) (k : pystr) :
  getitem v k = Ok x -> contains k v = Ok true.
Proof.
  intros H. destruct (getitem_ok_dict v x k H) as (d & -> & Hd).
  cbn [contains]. unfold dict_has. now rewrite Hd.
Qed.

(** The text under [parent.key.text]: its presence passes both
    membership tests of the extractor. *)
Lemma text_path (e v : pyval) (parent key : string) :
  getpath e [parent; key; "text"]%string = Ok v ->
  exists p c,
    getpath e [parent] = Ok p /\ contains (py key) p = Ok true /\
    getpath e [parent; key] = Ok c /\ contains (py "text") c = Ok true.
Proof.
  intros H. cbn [getpath] in H.
  destruct (getitem e (py parent)) as [p|] eqn:Ep; [|discriminate].
  destruct (getitem p (py key)) as [c|] eqn:Ec; [|discriminate].
  destruct (getitem c (py "text")) as [t|] eqn:Et; [|discriminate].
  exists p, c. cbn [getpath]. rewrite Ep, Ec.
  repeat split; eauto using getitem_contains.
Qed.

(** X4.  When [request.postData.text] is present and is not a string,
    the extractor raises [TypeError]: [json.loads] refuses the value and
    only [JSONDecodeError] is caught. *)
Theorem request_text_must_be_a_string (e v : pyval) :
  has_required_fields e = true ->
  getpath e ["request"; "postData"; "text"]%string = Ok v ->
  is_text v = false ->
  extract_interesting_content e = Raise TypeError.
Proof.
  unfold has_required_fields, extract_interesting_content. intros Hreq Hv Ht.
  destruct (getpath e ["request"; "url"]%string); [|discriminate].
  destruct (getpath e ["request"; "method"]%string); [|discriminate].
  destruct (getpath e ["response"; "status"]%string); [|discriminate].
  destruct (getpath e ["startedDateTime"]%string); [|discriminate].
  cbn [bind]. unfold request_body.
  destruct (text_path e v _ _ Hv) as (p & c & -> & Hp & -> & Hc).
  cbn [bind]. rewrite Hp. cbn [bind]. rewrite Hc. cbn [bind]. rewrite Hv.
  cbn [bind]. destruct v; try discriminate Ht; reflexivity.
Qed.

Lemma request_text_must_be_a_string_witness :
  extract_interesting_content Examples.null_text_entry = Raise TypeError.
Proof.
  apply (request_text_must_be_a_string Examples.null_text_entry PNone);
    vm_compute; reflexivity.
Defined.

(** X5.  When [response.content.text] is present and is not a string,
    the response step ignores it if it is falsy ([null], [false], zero,
    an empty list or object) and raises [TypeError] otherwise. *)
Theorem response_text_not_a_string (e v : pyval) (cleaned_entry : dict) :
  getpath e ["response"; "content"; "text"]%string = Ok v ->
  is_text v = false ->
  response_body e cleaned_entry =
  if truthy v then Raise TypeError else Ok cleaned_entry.
Proof.
  intros Hv Ht. unfold response_body.
  destruct (text_path e v _ _ Hv) as (p & c & -> & Hp & -> & Hc).
  cbn [bind]. rewrite Hp. cbn [bind]. rewrite Hc. cbn [bind]. rewrite Hv.
  cbn [bind]. destruct (truthy v); [|reflexivity].
  destruct v; try discriminate Ht; reflexivity.
Qed.

Lemma response_text_not_a_string_witness :
  response_body number_response_text_entry [] = Raise TypeError /\
  response_body null_response_text_entry [] = Ok [].
Proof.
  split.
  - apply (response_text_not_a_string number_response_text_entry (PInt 7) []);
      vm_compute; reflexivity.
  - apply (response_text_not_a_string null_response_text_entry PNone []);
      vm_compute; reflexivity.
Defined.

(** ** The message loop *)











(** ** The matcher *)

Section Matcher.

Import Re.

Lemma upper_char_cases (x : N) :
  upper_char x = x \/ ((97 <= x <= 122)%N /\ upper_char x = (x - 32)%N).
Proof.
  unfold upper_char.
  destruct ((97 <=? x)%N && (x <=? 122)%N) eqn:E; [right | now left].
  apply andb_prop in E. destruct E as [E1 E2].
  apply N.leb_le in E1. apply N.leb_le in E2. split; [lia | reflexivity].
Qed.

Lemma lower_upper_char (x : N) : lower (upper_char x) = lower x.
Proof.
  destruct (upper_char_cases x) as [-> | [Hx ->]]; [reflexivity|].
  unfold lower.
  replace ((65 <=? x - 32)%N && (x - 32 <=? 90)%N) with true
    by (symmetry; apply andb_true_intro; split; apply N.leb_le; lia).
  replace ((65 <=? x)%N && (x <=? 90)%N) with false
    by (symmetry; apply andb_false_intro2; apply N.leb_gt; lia).
  replace (N.eqb x 304) with false by (symmetry; apply N.eqb_neq; lia).
  replace (N.eqb x 8490) with false by (symmetry; apply N.eqb_neq; lia).
  lia.
Qed.

Lemma is_newline_upper_char (x : N) : is_newline (upper_char x) = is_newline x.
Proof.
  destruct (upper_char_cases x) as [-> | [Hx ->]]; [reflexivity|].
  unfold is_newline.
  replace (N.eqb (x - 32) 10) with false by (symmetry; apply N.eqb_neq; lia).
  replace (N.eqb x 10) with false by (symmetry; apply N.eqb_neq; lia).
  reflexivity.
Qed.

Lemma char_eq_ignorecase_upper (c x : N) :
  char_eq_ignorecase c (upper_char x) = char_eq_ignorecase c x.
Proof. unfold char_eq_ignorecase. now rewrite lower_upper_char. Qed.

Lemma at_eos_upper (s : pystr) : at_eos (upper s) = at_eos s.
Proof.
  destruct s as [|x [|y s]]; cbn [upper map at_eos]; trivial.
  apply is_newline_upper_char.
Qed.

Lemma match_here_star (r : regex) (s : pystr) :
  match_here (AnyStar :: r) s =
  match_here r s ||
  match s with
  | x :: s' => negb (is_newline x) && match_here (AnyStar :: r) s'
  | [] => false
  end.
Proof. destruct s; reflexivity. Qed.

Lemma match_here_upper (r : regex) (s : pystr) :
  match_here r (upper s) = match_here r s.
Proof.
  revert s. induction r as [|n r IH]; intros s; [reflexivity|].
  destruct n.
  - cbn [match_here]. destruct s as [|x s]; cbn [upper map]; trivial.
    fold (upper s). now rewrite char_eq_ignorecase_upper, IH.
  - cbn [match_here]. destruct s as [|x s]; cbn [upper map]; trivial.
    fold (upper s). now rewrite is_newline_upper_char, IH.
  - induction s as [|x s IHs].
    + reflexivity.
    + rewrite (match_here_star r (x :: s)), <- (IH (x :: s)), <- IHs.
      rewrite match_here_star. cbn [upper map]. fold (upper s).
      now rewrite is_newline_upper_char.
  - cbn [match_here]. now rewrite at_eos_upper, IH.
Qed.

Lemma search_from_upper (r : regex) (s : pystr) :
  search_from r (upper s) = search_from r s.
Proof.
  induction s as [|x s IH]; [reflexivity|].
  cbn [upper map search_from]. fold (upper s). rewrite IH.
  change (upper_char x :: upper s) with (upper (x :: s)).
  now rewrite match_here_upper.
Qed.

(** A match is found in every text that ends with the text it was found
    in. *)
Lemma search_from_app_l (r : regex) (pre s : pystr) :
  search_from r s = true -> search_from r (pre ++ s) = true.
Proof.
  intros H. induction pre as [|x pre IH]; cbn [app search_from]; trivial.
  rewrite IH. apply orb_true_r.
Qed.

(** Without [$], a match of a prefix is a match of the text. *)
Lemma match_here_app_r (r : regex) (s post : pystr) :
  unanchored r = true -> match_here r s = true -> match_here r (s ++ post) = true.
Proof.
  revert s. induction r as [|n r IH]; intros s Hr H; [reflexivity|].
  cbn [unanchored forallb] in Hr. apply andb_prop in Hr. destruct Hr as [Hn Hr].
  destruct n; try discriminate Hn.
  - cbn [match_here] in *. destruct s as [|x s]; [discriminate|]. cbn [app].
    apply andb_prop in H. destruct H as [Hc Hm].
    rewrite Hc. cbn [andb]. now apply IH.
  - cbn [match_here] in *. destruct s as [|x s]; [discriminate|]. cbn [app].
    apply andb_prop in H. destruct H as [Hc Hm].
    rewrite Hc. cbn [andb]. now apply IH.
  - induction s as [|x s IHs]; rewrite match_here_star in H |- *.
    + rewrite orb_false_r in H. now rewrite (IH [] Hr H).
    + apply orb_prop in H. destruct H as [H|H].
      * now rewrite (IH (x :: s) Hr H).
      * cbn [app]. apply andb_prop in H. destruct H as [Hx Hs].
        rewrite Hx, (IHs Hs). cbn [andb]. apply orb_true_r.
Qed.

Lemma match_here_search (r : regex) (s : pystr) :
  match_here r s = true -> search_from r s = true.
Proof. intros H. destruct s; cbn [search_from]; now rewrite H. Qed.

Lemma search_from_app_r (r : regex) (s post : pystr) :
  unanchored r = true -> search_from r s = true -> search_from r (s ++ post) = true.
Proof.
  intros Hr. induction s as [|x s IH]; intros H.
  - cbn [search_from] in H. rewrite orb_false_r in H.
    apply match_here_search. now apply (match_here_app_r r [] post).
  - cbn [search_from] in H. apply orb_prop in H. destruct H as [H|H].
    + apply match_here_search. now apply match_here_app_r.
    + cbn [app search_from]. rewrite (IH H). apply orb_true_r.
Qed.

(** A match somewhere is a match at the head of a suffix. *)
Lemma search_from_suffix (r : regex) (s : pystr) :
  search_from r s = true ->
  exists pre t, s = (pre ++ t)%list /\ match_here r t = true.
Proof.
  induction s as [|x s IH]; cbn [search_from]; intros H.
  - exists [], []. rewrite orb_false_r in H. now split.
  - apply orb_prop in H. destruct H as [H|H].
    + exists [], (x :: s). now split.
    + destruct (IH H) as (pre & t & -> & Hm). exists (x :: pre), t. now split.
Qed.

(** Literal patterns: the match of a concatenation splits. *)
Lemma match_here_literal_app (a : pystr) (r : regex) (s : pystr) :
  match_here (literal a ++ r) s = true ->
  exists s1 s2, s = (s1 ++ s2)%list /\ match_here (literal a) s1 = true
                /\ match_here r s2 = true.
Proof.
  revert s. induction a as [|c a IH]; intros s H; cbn [literal map app] in *.
  - exists [], s. now split.
  - cbn [match_here] in H. destruct s as [|x s]; [discriminate|].
    apply andb_prop in H. destruct H as [Hc Hm].
    destruct (IH s Hm) as (s1 & s2 & -> & H1 & H2).
    exists (x :: s1), s2. cbn [match_here]. fold (literal a).
    rewrite Hc, H1. now split.
Qed.

(** Two literal patterns that differ by case only match alike. *)
Lemma match_here_literal_case (a b : pystr) (s : pystr) :
  map lower a = map lower b ->
  match_here (literal a) s = match_here (literal b) s.
Proof.
  revert b s. induction a as [|c a IH]; intros [|d b] s H; try discriminate H.
  - reflexivity.
  - cbn [map] in H. injection H as Hc Hab.
    cbn [literal map match_here]. destruct s as [|x s]; trivial.
    fold (literal a). fold (literal b).
    unfold char_eq_ignorecase. now rewrite Hc, (IH b s Hab).
Qed.

(** A text found by the literal pattern [a ++ b ++ c] is found by the
    pattern of [b'], for [b'] equal to [b] up to case. *)
Lemma search_literal_inside (a b c b' : pystr) (s : pystr) :
  map lower b = map lower b' ->
  search_from (literal (a ++ b ++ c)) s = true ->
  search_from (literal b') s = true.
Proof.
  intros Hb H. destruct (search_from_suffix _ _ H) as (pre & t & -> & Hm).
  unfold literal in Hm. rewrite !map_app in Hm. fold (literal a) in Hm.
  destruct (match_here_literal_app a _ t Hm) as (s1 & s2 & -> & _ & H2).
  fold (literal b) in H2.
  destruct (match_here_literal_app b _ s2 H2) as (s3 & s4 & -> & H3 & _).
  apply search_from_app_l, search_from_app_l.
  apply search_from_app_r.
  - unfold unanchored, literal. rewrite forallb_forall. intros n Hn.
    apply in_map_iff in Hn. destruct Hn as [x [<- _]]. reflexivity.
  - apply match_here_search. now rewrite <- (match_here_literal_case b b' s3 Hb).
Qed.

End Matcher.

(** ** The classifier on families of URLs *)

Lemma found_upper (url : pystr) (patterns : list pystr) :
  found (upper url) patterns = found url patterns.
Proof.
  unfold found. induction patterns as [|p ps IH]; cbn [existsb]; trivial.
  now rewrite search_from_upper, IH.
Qed.

(** X9.  The classifier does not see the case of ASCII letters: a URL
    and its upper-case form get the same answer. *)
Theorem classifier_ignores_ascii_case (url : pystr) :
  is_interesting_url (PStr (upper url)) = is_interesting_url (PStr url).
Proof. now rewrite !is_interesting_url_found, !found_upper. Qed.

Lemma found_app_l (pre url : pystr) (patterns : list pystr) :
  found url patterns = true -> found (pre ++ url) patterns = true.
Proof.
  unfold found. rewrite !existsb_exists. intros (p & Hin & Hs).
  exists p. split; trivial. now apply search_from_app_l.
Qed.

Lemma found_app_r (url post : pystr) (patterns : list pystr) :
  found url (filter unanchored_pattern patterns) = true ->
  found (url ++ post) patterns = true.
Proof.
  unfold found. rewrite !existsb_exists. intros (p & Hin & Hs).
  apply filter_In in Hin. destruct Hin as [Hin Hu].
  exists p. split; trivial. now apply search_from_app_r.
Qed.

Lemma noise_is_not_interesting (url : pystr) :
  found url noise_patterns = true -> is_interesting_url (PStr url) = Ok false.
Proof. intros H. now rewrite is_interesting_url_found, H. Qed.

(** X10.  A URL that ends in [.js], [.css], [.png], [.jpg] or [.ico] is
    never interesting, whatever comes before the extension. *)
Theorem static_asset_extensions_are_noise :
  Forall (fun ext => forall url, is_interesting_url (PStr (url ++ ext)) = Ok false)
    noise_extensions.
Proof.
  unfold noise_extensions. cbn [map].
  repeat constructor; intros url; apply noise_is_not_interesting, found_app_l;
    vm_compute; reflexivity.
Qed.

(** X11.  A URL that contains [/_next/], [/static/], [/assets/],
    [intercom.io], [amplitude.com], [google], [gtag],
    [fonts.googleapis.com], [wix] or [SearchWix] is never interesting,
    whatever surrounds the fragment. *)
Theorem noise_fragments_are_noise :
  Forall (fun fragment =>
            forall before after,
              is_interesting_url (PStr (before ++ fragment ++ after)) = Ok false)
    noise_fragments.
Proof.
  unfold noise_fragments. cbn [map].
  repeat constructor; intros before after;
    apply noise_is_not_interesting, found_app_l, found_app_r;
    vm_compute; reflexivity.
Qed.

Lemma fonts_is_google (url : pystr) :
  Re.search_from (Re.compile (py "fonts\.googleapis\.com")) url = true ->
  Re.search_from (Re.compile (py "google")) url = true.
Proof.
  change (Re.compile (py "fonts\.googleapis\.com"))
    with (literal (py "fonts." ++ py "google" ++ py "apis.com")).
  change (Re.compile (py "google")) with (literal (py "google")).
  now apply search_literal_inside.
Qed.

Lemma searchwix_is_wix (url : pystr) :
  Re.search_from (Re.compile (py "SearchWix")) url = true ->
  Re.search_from (Re.compile (py "wix")) url = true.
Proof.
  change (Re.compile (py "SearchWix")) with (literal (py "Search" ++ py "Wix" ++ [])).
  change (Re.compile (py "wix")) with (literal (py "wix")).
  now apply search_literal_inside.
Qed.

Lemma found_noise_needed (url : pystr) :
  found url noise_patterns = found url noise_patterns_needed.
Proof.
  unfold found, noise_patterns, noise_patterns_needed. cbn [map existsb].
  pose proof (fonts_is_google url) as Hg.
  pose proof (searchwix_is_wix url) as Hw.
  do 10 f_equal.
  destruct (Re.search_from (Re.compile (py "google")) url),
    (Re.search_from (Re.compile (py "gtag")) url),
    (Re.search_from (Re.compile (py "fonts\.googleapis\.com")) url),
    (Re.search_from (Re.compile (py "wix")) url),
    (Re.search_from (Re.compile (py "SearchWix")) url);
    trivial; try (now specialize (Hg eq_refl)); now specialize (Hw eq_refl).
Qed.

(** X12.  The noise patterns [fonts\.googleapis\.com] and [SearchWix]
    decide nothing: every URL they match is matched by [google] or by
    [wix], so the classifier without them gives the same answer on every
    URL. *)
Theorem two_noise_patterns_are_subsumed (url : pystr) :
  first_match noise_patterns_needed (PStr url) false
    (first_match interesting_patterns (PStr url) true (Ok false))
  = is_interesting_url (PStr url).
Proof.
  unfold is_interesting_url. rewrite !first_match_found.
  now rewrite found_noise_needed.
Qed.

(** ** The loop and the run *)

Lemma clean_loop_app (a b cleaned_entries : list pyval) :
  clean_loop (a ++ b) cleaned_entries =
  (r <- clean_loop a cleaned_entries ;; clean_loop b r).
Proof.
  revert cleaned_entries.
  induction a as [|e a IH]; intros cleaned_entries; cbn [app clean_loop bind].
  - reflexivity.
  - destruct (getpath e ["request"; "url"]%string) as [url|]; cbn [bind]; trivial.
    destruct (is_interesting_url url) as [[|]|]; cbn [bind]; trivial.
    destruct (extract_interesting_content e); cbn [bind]; trivial.
Qed.

Lemma clean_loop_accumulates (entries cleaned_entries : list pyval) :
  clean_loop entries cleaned_entries =
  (r <- clean_loop entries [] ;; Ok (cleaned_entries ++ r)%list).
Proof.
  revert cleaned_entries.
  induction entries as [|e entries IH]; intros cleaned_entries; cbn [clean_loop bind].
  - now rewrite app_nil_r.
  - destruct (getpath e ["request"; "url"]%string) as [url|]; cbn [bind]; trivial.
    destruct (is_interesting_url url) as [[|]|]; cbn [bind]; trivial.
    destruct (extract_interesting_content e) as [r|]; cbn [bind]; trivial.
    rewrite (IH (cleaned_entries ++ [r])%list), (IH ([] ++ [r])%list).
    destruct (clean_loop entries []); cbn [bind]; trivial.
    now rewrite <- app_assoc.
Qed.

(** X13.  The loop is compositional: the records of two entry lists put
    end to end are the records of the first followed by the records of
    the second, and the loop fails on the whole exactly as it fails on
    the first part or, that part passed, on the second. *)
Theorem clean_loop_concatenates (a b : list pyval) :
  clean_loop (a ++ b) [] =
  (ra <- clean_loop a [] ;; rb <- clean_loop b [] ;; Ok (ra ++ rb)%list).
Proof.
  rewrite clean_loop_app.
  destruct (clean_loop a []) as [ra|]; cbn [bind]; trivial.
  apply clean_loop_accumulates.
Qed.

Lemma is_interesting_url_string (url : pyval) (b : bool) :
  is_interesting_url url = Ok b -> exists s, url = PStr s.
Proof. destruct url; try discriminate. eauto. Qed.

Lemma clean_loop_needs (entries cleaned_entries out : list pyval) :
  clean_loop entries cleaned_entries = Ok out ->
  Forall (fun e =>
            (exists s, getpath e ["request"; "url"]%string = Ok (PStr s)) /\
            (kept e = true -> exists r, extracts_to e r))
    entries.
Proof.
  revert cleaned_entries.
  induction entries as [|e entries IH]; intros cleaned_entries H; [constructor|].
  cbn [clean_loop] in H.
  destruct (getpath e ["request"; "url"]%string) as [url|] eqn:Eu; [|discriminate].
  cbn [bind] in H.
  destruct (is_interesting_url url) as [b|] eqn:Eb; [|discriminate].
  cbn [bind] in H. destruct (is_interesting_url_string _ _ Eb) as [s ->].
  assert (Forall (fun e =>
            (exists s, getpath e ["request"; "url"]%string = Ok (PStr s)) /\
            (kept e = true -> exists r, extracts_to e r)) entries) as Hrest.
  { destruct b; [|exact (IH _ H)].
    destruct (extract_interesting_content e); [|discriminate]. exact (IH _ H). }
  constructor; trivial. split; [eauto|].
  unfold kept, extracts_to. rewrite Eu, Eb. intros ->.
  destruct (extract_interesting_content e); [eauto | discriminate].
Qed.

(** X14.  A run that writes its report has read a document with at
    least one entry, in which every entry, kept or not, has a string
    under [request.url] and every entry with an interesting URL is
    extracted without error: one entry that fails either test makes the
    whole run fail. *)
Theorem run_needs_every_entry
    (fs : filesystem) (input_path output_path : pystr) :
  fst (clean_har_file fs input_path output_path) = Ok tt ->
  exists har_data entries,
    input_document fs input_path = Ok har_data /\
    input_entries har_data = Ok entries /\
    entries <> [] /\
    Forall (fun e =>
              (exists s, getpath e ["request"; "url"]%string = Ok (PStr s)) /\
              (kept e = true -> exists r, extracts_to e r))
      entries.
Proof.
  unfold clean_har_file.
  destruct (cleaned_har fs input_path) as [report|] eqn:Hc; [|discriminate].
  intros _. revert Hc.
  unfold cleaned_har, input_document, input_entries, build_report, original_count.
  destruct (open_read fs input_path) as [f|]; [|discriminate]. cbn [bind].
  destruct (json_load f) as [har_data|]; [|discriminate]. cbn [bind].
  destruct (getpath har_data ["log"; "entries"]%string) as [source|] eqn:Es;
    [|discriminate].
  cbn [bind].
  destruct (iter source) as [entries|] eqn:Ei; [|discriminate]. cbn [bind].
  destruct (clean_loop entries []) as [out|] eqn:El; [|discriminate]. cbn [bind].
  rewrite (iter_len _ _ Ei). cbn [bind]. intros H.
  exists har_data, entries. rewrite Es. cbn [bind].
  repeat split; trivial.
  - intros ->. apply clean_loop_kept in El. destruct El as (records & -> & Hall).
    inversion Hall; subst. discriminate H.
  - exact (clean_loop_needs _ _ _ El).
Qed.

Lemma run_needs_every_entry_witness :
  exists har_data entries,
    input_document Examples.two_entries Examples.input_path = Ok har_data /\
    input_entries har_data = Ok entries /\
    entries <> [] /\
    Forall (fun e =>
              (exists s, getpath e ["request"; "url"]%string = Ok (PStr s)) /\
              (kept e = true -> exists r, extracts_to e r))
      entries.
Proof.
  apply (run_needs_every_entry Examples.two_entries Examples.input_path
           Examples.output_path).
  vm_compute; reflexivity.
Defined.




Lemma round_same (p : positive) : round false p p = one.
Proof.
  unfold round.
  assert (ilog2 p p = 0%Z) as ->.
  { unfold ilog2. rewrite Z.sub_diag. unfold scale. cbn [Z.leb Z.compare].
    change (2 ^ 0)%Z with 1%Z. rewrite Z.mul_1_r.
    now rewrite Z.leb_refl. }
  change (Z.max (0 - 52) exp_min) with (-52)%Z.
  unfold scale. change (0 <=? -52)%Z with false. cbv iota.
  change (- -52)%Z with 52%Z.
  assert (rne_div (Zpos p * 2 ^ 52) (Zpos p) = 2 ^ 52)%Z as ->.
  { assert ((Zpos p * 2 ^ 52) / Zpos p = 2 ^ 52)%Z as H1
      by (rewrite Z.mul_comm; apply Z.div_mul; lia).
    assert ((Zpos p * 2 ^ 52) mod Zpos p = 0)%Z as H2
      by (rewrite Z.mul_comm; apply Z.mod_mul; lia).
    unfold rne_div. rewrite H1, H2. reflexivity. }
  reflexivity.
Qed.

(** X16.  For every number [n > 0] of entries: when none is kept the
    reduction ratio is ["100.0%"], and when all are kept it is
    ["0.0%"]. *)
Theorem ratio_when_none_or_all_kept (n : Z) :
  (0 < n)%Z ->
  reduction_ratio 0 n = Ok (py "100.0%") /\
  reduction_ratio n n = Ok (py "0.0%").
Proof.
  intros Hn. unfold reduction_ratio, reduction_value, int_truediv.
  replace (n =? 0)%Z with false by (symmetry; apply Z.eqb_neq; lia).
  split.
  - cbn [Z.eqb]. replace (n <? 0)%Z with false by (symmetry; apply Z.ltb_ge; lia).
    vm_compute. reflexivity.
  - replace (Z.sgn n * Z.sgn n <? 0)%Z with false
      by (symmetry; apply Z.ltb_ge; rewrite Z.sgn_pos by lia; lia).
    rewrite round_same. vm_compute. reflexivity.
Qed.

Lemma ratio_when_none_or_all_kept_witness :
  reduction_ratio 0 7 = Ok (py "100.0%") /\
  reduction_ratio 7 7 = Ok (py "0.0%").
Proof. apply (ratio_when_none_or_all_kept 7). lia. Defined.

Lemma report_has_no_log (fs : filesystem) (input_path : pystr) (report : pyval) :
  cleaned_har fs input_path = Ok report ->
  getpath report ["log"; "entries"]%string = Raise KeyError.
Proof.
  unfold cleaned_har, build_report. intros H.
  destruct (open_read fs input_path) as [f|]; [|discriminate]. cbn [bind] in H.
  destruct (json_load f) as [har_data|]; [|discriminate]. cbn [bind] in H.
  destruct (getpath har_data ["log"; "entries"]%string) as [source|]; [|discriminate].
  cbn [bind] in H.
  destruct (iter source) as [items|]; [|discriminate]. cbn [bind] in H.
  destruct (clean_loop items []); [|discriminate]. cbn [bind] in H.
  destruct (original_count har_data); [|discriminate]. cbn [bind] in H.
  destruct (reduction_ratio _ _); [|discriminate]. cbn [bind] in H.
  injection H as <-. reflexivity.
Qed.

(** X17.  The file a run writes is not an input of the program: a run
    that reads it back stops with [KeyError] (the report has no [log])
    and leaves every file as it is. *)
Theorem cleaned_file_is_not_an_input
    (fs : filesystem) (input_path output_path other_path : pystr) :
  fst (clean_har_file fs input_path output_path) = Ok tt ->
  clean_har_file (snd (clean_har_file fs input_path output_path)) output_path other_path
  = (Raise KeyError, snd (clean_har_file fs input_path output_path)).
Proof.
  unfold clean_har_file at 1 3 4.
  destruct (cleaned_har fs input_path) as [report|] eqn:Hc; [|discriminate].
  intros _. cbn [snd].
  unfold clean_har_file, cleaned_har, open_read, write.
  rewrite str_eqb_refl. cbn [bind json_load].
  now rewrite (report_has_no_log _ _ _ Hc).
Qed.

Lemma cleaned_file_is_not_an_input_witness :
  clean_har_file
    (snd (clean_har_file Examples.two_entries Examples.input_path Examples.output_path))
    Examples.output_path Examples.input_path
  = (Raise KeyError,
     snd (clean_har_file Examples.two_entries Examples.input_path Examples.output_path)).
Proof.
  apply (cleaned_file_is_not_an_input Examples.two_entries Examples.input_path
           Examples.output_path Examples.input_path).
  vm_compute; reflexivity.
Defined.

Lemma kept_records_have_interesting_urls (entries records : list pyval) :
  Forall2 extracts_to entries records ->
  Forall (fun e => kept e = true) entries ->
  Forall (fun r => exists url,
            getpath r ["url"]%string = Ok url /\ is_interesting_url url = Ok true)
    records.
Proof.
  induction 1 as [|e r entries records Hx _ IH]; intros Hk; constructor.
  - inversion Hk as [|? ? Hke _]; subst. unfold kept in Hke.
    destruct (extract_shape e r Hx)
      as (d & url & method & status & started & rq & rs & ws & -> & Hu & _ & _ & _
          & Hd & _).
    rewrite Hu in Hke. exists url. split.
    + cbn [getpath getitem]. now rewrite Hd.
    + destruct (is_interesting_url url) as [[|]|]; trivial; discriminate.
  - apply IH. now inversion Hk.
Qed.

(** X18.  Every record of a written report carries an interesting URL:
    the classifier returns true on its [url] field. *)
Theorem report_holds_only_interesting_urls
    (fs : filesystem) (input_path output_path : pystr) :
  fst (clean_har_file fs input_path output_path) = Ok tt ->
  exists report records,
    snd (clean_har_file fs input_path output_path)
    = write fs output_path (Dumped report) /\
    getpath report ["entries"]%string = Ok (PList records) /\
    Forall (fun r => exists url,
              getpath r ["url"]%string = Ok url /\ is_interesting_url url = Ok true)
      records.
Proof.
  unfold clean_har_file.
  destruct (cleaned_har fs input_path) as [report|] eqn:Hc; [|discriminate].
  intros _. cbn [snd].
  destruct (cleaned_har_inv _ _ _ Hc)
    as (har_data & entries & records & ratio & _ & _ & Hall & _ & Hr & _).
  exists report, records. repeat split; trivial.
  apply (kept_records_have_interesting_urls _ _ Hall).
  apply Forall_forall. intros e He. now apply filter_In in He.
Qed.

Lemma report_holds_only_interesting_urls_witness :
  exists report records,
    snd (clean_har_file three_entries Examples.input_path Examples.output_path)
    = write three_entries Examples.output_path (Dumped report) /\
    getpath report ["entries"]%string = Ok (PList records) /\
    Forall (fun r => exists url,
              getpath r ["url"]%string = Ok url /\ is_interesting_url url = Ok true)
      records.
Proof.
  apply (report_holds_only_interesting_urls three_entries Examples.input_path
           Examples.output_path).
  vm_compute; reflexivity.
Defined.

Local Open Scope Z_scope.

(** ** The ratio depends on the proportion only *)

Lemma below_pow2_log2 (p q : Z) :
  0 < p -> 0 < q -> ~ at_least_pow2 p q (Z.log2 p - Z.log2 q + 1).
Proof.
  intros Hp Hq. unfold at_least_pow2, scale.
  pose proof (Z.log2_spec p Hp) as [_ Hp2].
  pose proof (Z.log2_spec q Hq) as [Hq1 _].
  pose proof (Z.log2_nonneg p). pose proof (Z.log2_nonneg q).
  set (lp := Z.log2 p) in *. set (lq := Z.log2 q) in *.
  destruct (0 <=? lp - lq + 1) eqn:E; cbn [fst snd]; intros H'.
  - apply Z.leb_le in E.
    assert (2 ^ Z.succ lp = 2 ^ lq * 2 ^ (lp - lq + 1)) as Hpow
      by (rewrite <- Z.pow_add_r by lia; f_equal; lia).
    pose proof (Z.pow_pos_nonneg 2 (lp - lq + 1) ltac:(lia) E). nia.
  - apply Z.leb_gt in E.
    assert (2 ^ lq = 2 ^ Z.succ lp * 2 ^ (- (lp - lq + 1))) as Hpow
      by (rewrite <- Z.pow_add_r by lia; f_equal; lia).
    pose proof (Z.pow_pos_nonneg 2 (- (lp - lq + 1)) ltac:(lia) ltac:(lia)). nia.
Qed.

(** [ilog2 p q] is the exponent [e] with [2^e <= p / q < 2^(e+1)]. *)
Lemma ilog2_spec (p q : positive) :
  at_least_pow2 (Zpos p) (Zpos q) (ilog2 p q) /\
  ~ at_least_pow2 (Zpos p) (Zpos q) (ilog2 p q + 1).
Proof.
  unfold ilog2.
  set (e0 := Z.log2 (Zpos p) - Z.log2 (Zpos q)).
  destruct (scale (Zpos p) (Zpos q) e0) as [n d] eqn:Es.
  destruct (d <=? n) eqn:T.
  - apply Z.leb_le in T. split.
    + unfold at_least_pow2. now rewrite Es.
    + apply below_pow2_log2; lia.
  - apply Z.leb_gt in T. split.
    + apply at_least_pow2_log2; lia.
    + replace (e0 - 1 + 1) with e0 by lia. unfold at_least_pow2. rewrite Es.
      cbn [fst snd]. lia.
Qed.

Lemma at_least_pow2_scaled (c p q e : Z) :
  0 < c -> (at_least_pow2 (c * p) (c * q) e <-> at_least_pow2 p q e).
Proof.
  intros Hc. unfold at_least_pow2, scale.
  destruct (0 <=? e); cbn [fst snd].
  - rewrite <- Z.mul_assoc. symmetry. apply Z.mul_le_mono_pos_l; lia.
  - rewrite <- Z.mul_assoc. symmetry. apply Z.mul_le_mono_pos_l; lia.
Qed.

Lemma ilog2_scaled (c p q : positive) : ilog2 (c * p) (c * q) = ilog2 p q.
Proof.
  destruct (ilog2_spec (c * p) (c * q)) as [H1 H2].
  destruct (ilog2_spec p q) as [H3 H4].
  rewrite !Pos2Z.inj_mul in H1, H2.
  rewrite at_least_pow2_scaled in H1, H2 by lia.
  destruct (Z.lt_trichotomy (ilog2 (c * p) (c * q)) (ilog2 p q)) as [Hlt|[Heq|Hgt]];
    trivial; exfalso.
  - apply H2. apply (at_least_pow2_mono _ _ _ (ilog2 p q)); trivial; lia.
  - apply H4. apply (at_least_pow2_mono _ _ _ (ilog2 (c * p) (c * q))); trivial; lia.
Qed.

Lemma rne_div_scaled (c n d : Z) :
  0 < c -> 0 < d -> rne_div (c * n) (c * d) = rne_div n d.
Proof.
  intros Hc Hd. unfold rne_div.
  rewrite Z.div_mul_cancel_l, Z.mul_mod_distr_l by lia.
  replace (2 * (c * (n mod d))) with (c * (2 * (n mod d))) by ring.
  cbv zeta. set (r := 2 * (n mod d)).
  destruct (Z.compare_spec (c * r) (c * d)), (Z.compare_spec r d);
    trivial; nia.
Qed.

Lemma round_scaled (s : bool) (c p q : positive) :
  round s (c * p) (c * q) = round s p q.
Proof.
  unfold round. rewrite ilog2_scaled.
  set (e := Z.max (ilog2 p q - 52) exp_min).
  unfold scale. rewrite !Pos2Z.inj_mul.
  destruct (0 <=? e) eqn:E.
  - apply Z.leb_le in E.
    pose proof (Z.pow_pos_nonneg 2 e ltac:(lia) E) as Hp.
    rewrite <- !Z.mul_assoc, rne_div_scaled by nia.
    reflexivity.
  - rewrite <- !Z.mul_assoc, rne_div_scaled by lia. reflexivity.
Qed.

(** X19.  The reduction ratio depends on the proportion kept only:
    multiplying both counts by the same positive number leaves the text
    unchanged (1 of 2 and 500 of 1000 give the same text). *)
Theorem ratio_depends_on_the_proportion (c k n : Z) :
  0 < c -> 0 <= k -> 0 < n ->
  reduction_ratio (c * k) (c * n) = reduction_ratio k n.
Proof.
  intros Hc Hk Hn. unfold reduction_ratio, reduction_value. f_equal. f_equal.
  unfold int_truediv.
  replace (c * n =? 0) with false by (symmetry; apply Z.eqb_neq; lia).
  replace (n =? 0) with false by (symmetry; apply Z.eqb_neq; lia).
  destruct (Z.eq_dec k 0) as [->|Hk0].
  - rewrite Z.mul_0_r. cbn [Z.eqb].
    replace (c * n <? 0) with false by (symmetry; apply Z.ltb_ge; lia).
    replace (n <? 0) with false by (symmetry; apply Z.ltb_ge; lia).
    reflexivity.
  - replace (c * k =? 0) with false by (symmetry; apply Z.eqb_neq; lia).
    replace (k =? 0) with false by (symmetry; apply Z.eqb_neq; lia).
    replace (Z.sgn (c * k) * Z.sgn (c * n) <? 0) with false
      by (symmetry; apply Z.ltb_ge; rewrite !Z.sgn_pos by lia; lia).
    replace (Z.sgn k * Z.sgn n <? 0) with false
      by (symmetry; apply Z.ltb_ge; rewrite !Z.sgn_pos by lia; lia).
    rewrite !Z.abs_eq by lia.
    rewrite !Z2Pos.inj_mul by lia.
    now rewrite round_scaled.
Qed.

Lemma ratio_depends_on_the_proportion_witness :
  reduction_ratio (500 * 1) (500 * 2) = reduction_ratio 1 2.
Proof. apply (ratio_depends_on_the_proportion 500 1 2); lia. Defined.
